(** * OmniSearch Mail: the bundle download of [server/routes.ts]

    A shallow embedding of the entity matcher of [POST /api/query/run] and of
    the ZIP bundle of [POST /api/download/bundle], with the helper functions
    [isGenericFilename], [sanitizeFolderName], [formatDatePrefix],
    [generateBasePdf], [generateCombinedPdf] and [generateJsonRecord].

    Strings are sequences of code units; the embedding covers the Latin-1
    range (code units 0 to 255), so a JavaScript string is a [string] of
    8-bit characters.  The external collaborators (the Gmail attachment
    fetch, the [Date] parser, pdfkit and pdf-lib) are variables of the
    sections that use them.

    Further modules embed the code around the bundle: the Gmail query and
    the parts of a message of [server/gmail.ts] ([Gmail], [Mime], [Search]),
    the in-memory store ([Storage]), the import of a sheet ([Sheet]),
    [stripHtmlTags] ([Html]) and the names that the page shows ([Client]). *)

From Stdlib Require Import ZArith List Ascii String Lia Bool DecimalString.
From stdpp Require Import base option list strings gmap.

(** ** JavaScript string primitives *)

Module Js.

Definition chars (s : string) : list ascii := String.list_ascii_of_string s.
Definition str (l : list ascii) : string := String.string_of_list_ascii l.

Definition dquote : ascii := Ascii.ascii_of_nat 34.
Definition underscore : ascii := "_"%char.
Definition dot : ascii := "."%char.

Definition code (c : ascii) : nat := Ascii.nat_of_ascii c.

Definition isUnderscore (c : ascii) : bool := Ascii.eqb c underscore.
Definition isDot (c : ascii) : bool := Ascii.eqb c dot.

(** [\d] *)
Definition isDigit (c : ascii) : bool :=
  (48 <=? code c) && (code c <=? 57).

(** [\s], on code units below 256: TAB, LF, VT, FF, CR, space and U+00A0. *)
Definition isSpace (c : ascii) : bool :=
  existsb (Nat.eqb (code c)) [9; 10; 11; 12; 13; 32; 160].

(** [String.prototype.toLowerCase] on Latin-1: A-Z, and the accented
    capitals U+00C0..U+00DE but U+00D7, move up by 32. *)
Definition lowerChar (c : ascii) : ascii :=
  let n := code c in
  if ((65 <=? n) && (n <=? 90))
     || ((192 <=? n) && (n <=? 222) && negb (n =? 215))
  then Ascii.ascii_of_nat (n + 32) else c.

Definition toLowerCase (s : string) : string := str (map lowerChar (chars s)).

(** [s.substring(0, n)] *)
Definition substring0 (n : nat) (s : string) : string := str (take n (chars s)).

(** [s.substring(n)] *)
Definition substringFrom (n : nat) (s : string) : string := str (drop n (chars s)).

Definition listEqb (l k : list ascii) : bool := bool_decide (l = k).

(** [s.startsWith(p)] *)
Definition startsWith (p s : string) : bool :=
  listEqb (take (length (chars p)) (chars s)) (chars p).

(** [s.endsWith(p)] *)
Definition endsWith (p s : string) : bool :=
  (length (chars p) <=? length (chars s))
  && listEqb (drop (length (chars s) - length (chars p)) (chars s)) (chars p).

(** [s.includes('.')] *)
Definition includesDot (s : string) : bool := existsb isDot (chars s).

(** The text after the last dot: [s.split('.').pop()]. *)
Fixpoint afterLastDot (acc l : list ascii) : list ascii :=
  match l with
  | [] => acc
  | c :: r => if isDot c then afterLastDot r r else afterLastDot acc r
  end.

Definition splitDotPop (s : string) : string :=
  str (afterLastDot (chars s) (chars s)).

(** [s.replace(/\.[^.]+$/, '')]: the last dot and what follows it are
    removed when at least one character follows that dot. *)
Fixpoint stripExtChars (l : list ascii) : list ascii :=
  match l with
  | [] => []
  | c :: r =>
      if isDot c && negb (existsb isDot r) && negb (bool_decide (r = []))
      then [] else c :: stripExtChars r
  end.

Definition stripExt (s : string) : string := str (stripExtChars (chars s)).

(** [String(n)] for an integer. *)
Definition ofNat (n : nat) : string := NilEmpty.string_of_uint (Nat.to_uint n).
Definition ofN (n : N) : string := NilEmpty.string_of_uint (N.to_uint n).
Definition ofZ (z : Z) : string := NilEmpty.string_of_int (Z.to_int z).

(** [s.padStart(2, '0')] *)
Definition padStart2 (s : string) : string :=
  str (replicate (2 - length (chars s)) "0"%char ++ chars s).

(** A JavaScript [||] on strings: the empty string is falsy. *)
Definition orElse (s d : string) : string :=
  if bool_decide (s = EmptyString) then d else s.

(** [x || d] where [x] is [string | null]. *)
Definition orElseNull (s : option string) (d : string) : string :=
  match s with
  | Some v => orElse v d
  | None => d
  end.

End Js.

(** ** Name derivation: [isGenericFilename] and [sanitizeFolderName] *)

Module Names.
Import Js.

(** *** Regular expressions of [isGenericFilename], on the characters *)

Definition allDigits (l : list ascii) : bool := forallb isDigit l.

(** [_?\d*$] *)
Definition optUnderscoreDigits (l : list ascii) : bool :=
  match l with
  | c :: r => if isUnderscore c then allDigits r else allDigits l
  | [] => true
  end.

Definition afterPrefix (p : string) (l : list ascii) : option (list ascii) :=
  if listEqb (take (length (chars p)) l) (chars p)
  then Some (drop (length (chars p)) l) else None.

Definition testAfter (p : string) (rest : list ascii -> bool) (l : list ascii) : bool :=
  match afterPrefix p l with
  | Some r => rest r
  | None => false
  end.

(** The seven patterns, in the order of the source. *)
Definition genericPatterns : list (list ascii -> bool) :=
  [ testAfter "inline" optUnderscoreDigits       (* /^inline_?\d*$/ *)
  ; testAfter "attachment" optUnderscoreDigits   (* /^attachment_?\d*$/ *)
  ; testAfter "noname" (fun r => bool_decide (r = []))   (* /^noname$/ *)
  ; testAfter "att" (fun r => negb (bool_decide (r = [])) && allDigits r)  (* /^att\d+$/ *)
  ; testAfter "unnamed" (fun _ => true)          (* /^unnamed/ *)
  ; testAfter "image" allDigits                  (* /^image\d*$/ *)
  ; testAfter "file" optUnderscoreDigits         (* /^file_?\d*$/ *)
  ].

Definition isGenericFilename (filename : string) : bool :=
  let lower := toLowerCase filename in
  let nameOnly := stripExt lower in
  existsb (fun p => p (chars nameOnly)) genericPatterns.

(** *** [sanitizeFolderName] *)

(** The character class of the first replacement: the nine characters
    less-than, greater-than, colon, double quote, slash, backslash, bar,
    question mark and star. *)
Definition isForbidden (c : ascii) : bool :=
  existsb (Ascii.eqb c)
    ["<"; ">"; ":"; dquote; "/"; "\"; "|"; "?"; "*"]%char.

(** The first replacement removes every character of the class. *)
Definition stripForbidden (l : list ascii) : list ascii :=
  List.filter (fun c => negb (isForbidden c)) l.

(** [replace(/p+/g, '_')]: every maximal run of characters of the class [p]
    becomes one underscore; [inRun] tells that the previous character was
    of the class. *)
Fixpoint squeeze (p : ascii -> bool) (inRun : bool) (l : list ascii) : list ascii :=
  match l with
  | [] => []
  | c :: r =>
      if p c then (if inRun then squeeze p true r else underscore :: squeeze p true r)
      else c :: squeeze p false r
  end.

(** [replace(/^_|_$/g, '')]: the match at the start comes first, the match at
    the end is looked for in what follows it. *)
Definition stripLeading (l : list ascii) : list ascii :=
  match l with
  | c :: r => if isUnderscore c then r else l
  | [] => []
  end.

Fixpoint stripTrailing (l : list ascii) : list ascii :=
  match l with
  | [] => []
  | c :: r =>
      match r with
      | [] => if isUnderscore c then [] else [c]
      | _ :: _ => c :: stripTrailing r
      end
  end.

(** The chain of [sanitizeFolderName] up to [substring(0, 80)]. *)
Definition sanitizeChars (l : list ascii) : list ascii :=
  take 80
    (stripTrailing (stripLeading
       (squeeze isUnderscore false (squeeze isSpace false (stripForbidden l))))).

Definition sanitizeFolderName (name : string) : string :=
  orElse (str (sanitizeChars (chars name))) "Unknown".

(** The attachment renaming of the bundle loop (routes.ts, lines 396-400). *)
Definition extensionOf (attName : string) : string :=
  if includesDot attName then "." +:+ splitDotPop attName else EmptyString.

Definition cleanAttachmentName (filename subject : string) : string :=
  if isGenericFilename filename && negb (bool_decide (subject = EmptyString))
  then substring0 60 (sanitizeFolderName subject) +:+ extensionOf filename
  else filename.

End Names.


Import Js Names.

(** ** Exceptions *)

(** A computation that returns or throws; [e] is the message of the error. *)
Inductive result (A : Type) : Type :=
| Ok (a : A)
| Throw (e : string).
Arguments Ok {A} a.
Arguments Throw {A} e.

#[export] Instance result_ret : MRet result := fun A a => Ok a.
#[export] Instance result_bind : MBind result := fun A B f m =>
  match m with
  | Ok a => f a
  | Throw e => Throw e
  end.

(** [try { body } catch (e) { handler }] around a value. *)
Definition catchWith {A : Type} (body : result A) (handler : string -> A) : A :=
  match body with
  | Ok a => a
  | Throw e => handler e
  end.

(** [try { body } catch (e) { handler }] where the handler may throw again. *)
Definition tryCatch {A : Type} (body : result A) (handler : string -> result A) : result A :=
  match body with
  | Ok a => Ok a
  | Throw e => handler e
  end.

Fixpoint foldM {S A : Type} (f : S -> A -> result S) (s : S) (l : list A) : result S :=
  match l with
  | [] => Ok s
  | a :: r => s' ← f s a; foldM f s' r
  end.

(** ** Numbers and dates *)

(** The numbers that the date getters return. *)
Inductive number : Type :=
| NaN
| Num (z : Z).

(** [String(n)] *)
Definition numToString (n : number) : string :=
  match n with
  | NaN => "NaN"
  | Num z => ofZ z
  end.

(** [n + 1] *)
Definition numSucc (n : number) : number :=
  match n with
  | NaN => NaN
  | Num z => Num (z + 1)
  end.

(** A valid [Date], seen through the getters the code calls: the fields of
    the local calendar and the ISO text. *)
Record DateFields : Type := {
  localYear : Z;
  localMonth : Z;    (* 0 to 11 *)
  localDay : Z;      (* 1 to 31 *)
  isoText : string
}.

(** A [Date] object; [None] is the Invalid Date. *)
Definition JsDate : Type := option DateFields.

Definition getFullYear (d : JsDate) : number :=
  match d with Some f => Num (localYear f) | None => NaN end.
Definition getMonth (d : JsDate) : number :=
  match d with Some f => Num (localMonth f) | None => NaN end.
Definition getDate (d : JsDate) : number :=
  match d with Some f => Num (localDay f) | None => NaN end.

(** [d.toISOString()] throws a RangeError on the Invalid Date. *)
Definition toISOString (d : JsDate) : result string :=
  match d with
  | Some f => Ok (isoText f)
  | None => Throw "Invalid time value"
  end.

(** ** Data of the bundle *)

Definition Buffer : Type := list Byte.byte.

(** An element of [items[i].attachments] of the request body. *)
Record AttachmentRef : Type := {
  att_id : string;
  att_filename : string;
  att_mimeType : string;
  att_size : Z
}.

(** An element of [items] of the request body, after [bundleSchema]. *)
Record Item : Type := {
  item_messageId : string;
  item_accountIndex : Z;
  item_subject : string;
  item_from : string;
  item_to : string;
  item_cc : string;
  item_date : string;
  item_bodyText : string;
  item_bodyHtml : string;
  item_entityName : option string;
  item_attachments : list AttachmentRef
}.

(** [interface DownloadedAttachment] *)
Record DownloadedAttachment : Type := {
  da_filename : string;
  da_mimeType : string;
  da_size : nat;
  da_buffer : Buffer;
  da_isImage : bool;
  da_isPdf : bool
}.

(** ** [formatBytes] *)

(** [(bytes / d).toFixed(1)] for [d] a power of two: the quotient is exact,
    and [toFixed] rounds its tenths to the nearest, the larger one on a tie. *)
Definition toFixed1 (bytes d : N) : string :=
  let tenths := ((20 * bytes + d) / (2 * d))%N in
  ofN (tenths / 10) +:+ "." +:+ ofN (tenths mod 10).

Definition formatBytes (bytes : N) : string :=
  if (bytes <? 1024)%N then ofN bytes +:+ " B"
  else if (bytes <? 1048576)%N then toFixed1 bytes 1024 +:+ " KB"
  else toFixed1 bytes 1048576 +:+ " MB".

(** ** The PDF documents *)

(** A row of the attachment listing of the metadata page: the file name,
    [formatBytes(att.size)] and the badge. *)
Record ListingRow : Type := {
  row_filename : string;
  row_size : string;
  row_badge : string
}.

(** The pages of a combined PDF, by what the code draws on them. *)
Inductive Page : Type :=
| MetadataPage (title : string) (fields : list (string * string)) (listing : list ListingRow)
| BodyPage (bodyContent : string)
    (** [doc.image] drew the bytes, or the notice replaced them *)
| ImagePage (heading : string) (image : option Buffer) (notice : option string)
    (** the first page of [source]; the grey bar and the caption drawn on it *)
| CopiedPage (source : Buffer) (bar : bool) (caption : option string).

(** ** The collaborators *)

(** What the code calls and does not define: the [Date] constructor, the
    Gmail fetch, pdfkit, pdf-lib, and [stripHtmlTags], whose text no property
    below depends on. *)
Record World : Type := {
  (** [new Date(dateStr)] *)
  newDate : string -> JsDate;
  (** [downloadAttachment(messageId, attachmentId, accountIndex)] *)
  downloadAttachment : string -> string -> Z -> result Buffer;
  (** [stripHtmlTags(html)] *)
  stripHtmlTags : string -> string;
  (** whether pdfkit's [doc.image] accepts the bytes; it throws otherwise *)
  pdfkitImage : Buffer -> bool;
  (** [PDFLibDocument.load(att.buffer, { ignoreEncryption: true })], seen
      through [getPageCount()] *)
  pdfLibLoad : Buffer -> result nat;
  (** whether pdf-lib's [drawText] can encode the caption; it throws otherwise *)
  pdfLibDrawText : string -> bool;
  (** whether [PDFLibDocument.load(baseBuffer)] reads the pages that pdfkit
      wrote, and whether [combinedDoc.save()] writes the result; they throw
      otherwise *)
  pdfLibReads : list Page -> bool;
  pdfLibSaves : list Page -> bool
}.

(** ** [formatDatePrefix] *)

Definition formatDatePrefix (w : World) (dateStr : string) : string :=
  catchWith
    (let d := newDate w dateStr in
     Ok (numToString (getFullYear d) +:+ "-"
         +:+ padStart2 (numToString (numSucc (getMonth d))) +:+ "-"
         +:+ padStart2 (numToString (getDate d))))
    (fun _ => "unknown-date").

Definition badgeOf (att : DownloadedAttachment) : string :=
  if da_isImage att then "[image preview below]"
  else if da_isPdf att then "[PDF preview below]"
  else "[separate file]".

Definition listingRow (att : DownloadedAttachment) : ListingRow :=
  {| row_filename := da_filename att;
     row_size := formatBytes (N.of_nat (da_size att));
     row_badge := badgeOf att |}.

Definition truthy (s : string) : bool := negb (bool_decide (s = EmptyString)).

(** The page that the loop over [imageAttachments] adds for one image. *)
Definition imagePage (w : World) (img : DownloadedAttachment) : Page :=
  let heading := "Attachment Preview: " +:+ da_filename img in
  if pdfkitImage w (da_buffer img)
  then ImagePage heading (Some (da_buffer img)) None
  else ImagePage heading None
         (Some ("[Could not embed image: " +:+ da_filename img +:+ "]")).

Definition generateBasePdf (w : World) (item : Item)
    (attachments : list DownloadedAttachment) : list Page :=
  let fields :=
    [ ("From", item_from item); ("To", item_to item); ("CC", item_cc item);
      ("Date", item_date item);
      ("Entity", orElseNull (item_entityName item) "Unknown") ] in
  let bodyContent :=
    orElse (orElse (item_bodyText item) (stripHtmlTags w (item_bodyHtml item)))
           "(empty body)" in
  [ MetadataPage (orElse (item_subject item) "(no subject)")
      (List.filter (fun f => truthy (snd f)) fields)
      (map listingRow attachments);
    BodyPage bodyContent ]
  ++ map (imagePage w) (List.filter da_isImage attachments).

(** The body of the inner [try] of [generateCombinedPdf] on the pages of
    [combinedDoc]: what it returns or throws, and the pages it leaves. *)
Definition splicePreview (w : World) (att : DownloadedAttachment)
    (combinedDoc : list Page) : result unit * list Page :=
  match pdfLibLoad w (da_buffer att) with
  | Throw e => (Throw e, combinedDoc)
  | Ok totalPages =>
      match totalPages with
      | O => (Throw "copyPages: no page 0", combinedDoc)
      | S _ =>
          let captionText :=
            "Preview: " +:+ da_filename att +:+ " (page 1 of "
            +:+ ofNat totalPages +:+ ")" in
          if pdfLibDrawText w captionText
          then (Ok tt, combinedDoc ++ [CopiedPage (da_buffer att) true (Some captionText)])
          else (Throw "drawText", combinedDoc ++ [CopiedPage (da_buffer att) true None])
      end
  end.

(** The loop over [pdfAttachments]: the inner [catch] only logs. *)
Definition splicePreviews (w : World) (pdfAttachments : list DownloadedAttachment)
    (combinedDoc : list Page) : list Page :=
  fold_left (fun doc att => snd (splicePreview w att doc)) pdfAttachments combinedDoc.

Definition generateCombinedPdf (w : World) (item : Item)
    (attachments : list DownloadedAttachment) : result (list Page) :=
  let baseBuffer := generateBasePdf w item attachments in
  let pdfAttachments := List.filter da_isPdf attachments in
  if bool_decide (pdfAttachments = []) then Ok baseBuffer
  else
    tryCatch
      (combinedDoc ← (if pdfLibReads w baseBuffer then Ok baseBuffer else Throw "load");
       let final := splicePreviews w pdfAttachments combinedDoc in
       if pdfLibSaves w final then Ok final else Throw "save")
      (fun _ => Ok baseBuffer).

(** ** The JSON record *)

#[local] Set Warnings "-register-all".
Inductive json : Type :=
| JString (s : string)
| JNumber (n : Z)
| JBool (b : bool)
| JArray (l : list json)
| JObject (fields : list (string * json)).

(** The value of an own property of an object. *)
Fixpoint assoc (key : string) (fields : list (string * json)) : option json :=
  match fields with
  | [] => None
  | (k, v) :: r => if bool_decide (k = key) then Some v else assoc key r
  end.

Definition jsonField (key : string) (j : json) : option json :=
  match j with
  | JObject fields => assoc key fields
  | _ => None
  end.


Definition attachmentJson (a : DownloadedAttachment) : json :=
  JObject
    [ ("filename", JString (da_filename a));
      ("mimeType", JString (da_mimeType a));
      ("size", JNumber (Z.of_nat (da_size a)));
      ("previewInCombinedPdf", JBool (da_isImage a || da_isPdf a)) ].

Definition generateJsonRecord (w : World) (item : Item)
    (attachments : list DownloadedAttachment) : json :=
  let dateISO :=
    catchWith (toISOString (newDate w (item_date item))) (fun _ => EmptyString) in
  JObject
    [ ("messageId", JString (item_messageId item));
      ("subject", JString (item_subject item));
      ("from", JString (item_from item));
      ("to", JString (item_to item));
      ("cc", JString (item_cc item));
      ("date", JString (item_date item));
      ("dateISO", JString dateISO);
      ("entity", JString (orElseNull (item_entityName item) "Unknown"));
      ("bodyText",
        JString (orElse (orElse (item_bodyText item)
                                (stripHtmlTags w (item_bodyHtml item)))
                        EmptyString));
      ("attachments", JArray (map attachmentJson attachments)) ].

(** ** The bundle *)

(** [/^image\/(png|jpe?g|gif|bmp|webp)$/i] *)
Definition isImageMime (mimeType : string) : bool :=
  bool_decide (toLowerCase mimeType ∈
    ["image/png"; "image/jpg"; "image/jpeg"; "image/gif"; "image/bmp"; "image/webp"]).

(** [/^application\/pdf$/i] *)
Definition isPdfMime (mimeType : string) : bool :=
  bool_decide (toLowerCase mimeType = "application/pdf").

(** What the [try] of the attachment loop pushes when the fetch returns. *)
Definition downloaded (item : Item) (att : AttachmentRef) (buffer : Buffer)
    : DownloadedAttachment :=
  {| da_filename := cleanAttachmentName (att_filename att) (item_subject item);
     da_mimeType := att_mimeType att;
     da_size := length buffer;
     da_buffer := buffer;
     da_isImage := isImageMime (att_mimeType att);
     da_isPdf := isPdfMime (att_mimeType att) |}.

(** The attachment loop: a fetch that throws is logged and nothing is pushed. *)
Definition downloadAttachments (w : World) (item : Item) : list DownloadedAttachment :=
  fold_left
    (fun downloadedAttachments att =>
       catchWith
         (buffer ← downloadAttachment w (item_messageId item) (att_id att)
                     (item_accountIndex item);
          mret (downloadedAttachments ++ [downloaded item att buffer]))
         (fun _ => downloadedAttachments))
    (item_attachments item) [].

(** What [archive.append] receives. *)
Inductive Content : Type :=
| RawFile (bytes : Buffer)
| PdfFile (pages : list Page)
| JsonFile (record : json).

Record Entry : Type := {
  entry_name : string;
  entry_data : Content
}.

Definition entityFolderOf (item : Item) : string :=
  sanitizeFolderName (orElseNull (item_entityName item) "Unknown").

Definition subjectSlugOf (item : Item) : string :=
  substring0 50 (sanitizeFolderName (orElse (item_subject item) "No_Subject")).

(** [fileKey], the key of [fileCounters].  It holds a slash, so it is never
    the name of a property that an empty object inherits. *)
Definition fileKeyOf (w : World) (item : Item) : string :=
  entityFolderOf item +:+ "/"
  +:+ (formatDatePrefix w (item_date item) +:+ "_" +:+ subjectSlugOf item).

(** The entry of a raw attachment (the last loop of an item). *)
Definition rawEntry (w : World) (item : Item) (att : DownloadedAttachment) : Entry :=
  let attSlug := substring0 60 (sanitizeFolderName (stripExt (da_filename att))) in
  let attExt := extensionOf (da_filename att) in
  {| entry_name :=
       entityFolderOf item +:+ "/"
       +:+ (formatDatePrefix w (item_date item) +:+ "_" +:+ attSlug +:+ attExt);
     entry_data := RawFile (da_buffer att) |}.

(** The state that the loop over [items] updates. *)
Record BundleState : Type := {
  fileCounters : gmap string nat;
  archive : list Entry
}.

(** One turn of the loop over [items]. *)
Definition processItem (w : World) (st : BundleState) (item : Item)
    : result BundleState :=
  let entityFolder := entityFolderOf item in
  let datePrefix := formatDatePrefix w (item_date item) in
  let subjectSlug := subjectSlugOf item in
  let baseFilename0 := datePrefix +:+ "_" +:+ subjectSlug in
  let fileKey := entityFolder +:+ "/" +:+ baseFilename0 in
  let '(counters, baseFilename) :=
    match fileCounters st !! fileKey with
    | Some n =>
        (<[fileKey := S n]> (fileCounters st), baseFilename0 +:+ "_" +:+ ofNat (S n))
    | None => (<[fileKey := 0]> (fileCounters st), baseFilename0)
    end in
  let downloadedAttachments := downloadAttachments w item in
  combinedPdf ← generateCombinedPdf w item downloadedAttachments;
  let jsonRecord := generateJsonRecord w item downloadedAttachments in
  mret
    {| fileCounters := counters;
       archive :=
         archive st
         ++ [ {| entry_name := entityFolder +:+ "/" +:+ (baseFilename +:+ "_combined.pdf");
                 entry_data := PdfFile combinedPdf |};
              {| entry_name := entityFolder +:+ "/" +:+ (baseFilename +:+ "_combined.json");
                 entry_data := JsonFile jsonRecord |} ]
         ++ map (rawEntry w item) downloadedAttachments |}.

(** The answer of [POST /api/download/bundle] to a body that passes the
    schema: a 400, the finalized ZIP, or the failure that the outer [catch]
    reports. *)
Inductive Response : Type :=
| Status400 (error : string)
| ZipStream (entries : list Entry)
| Failed (error : string).

Definition bundle (w : World) (items : list Item) : Response :=
  match items with
  | [] => Status400 "No items to download"
  | _ :: _ =>
      match foldM (processItem w) {| fileCounters := ∅; archive := [] |} items with
      | Ok st => ZipStream (archive st)
      | Throw e => Failed e
      end
  end.

(** ** The entity matcher of [POST /api/query/run] *)

Record Entity : Type := {
  entity_id : string;
  entity_name : string
}.

Record EmailMapping : Type := {
  mapping_entityId : string;
  mapping_pattern : string
}.

(** The longest run of characters other than [>] at the start. *)
Fixpoint upToGt (l : list ascii) : list ascii :=
  match l with
  | [] => []
  | d :: r => if Ascii.eqb d ">" then [] else d :: upToGt r
  end.

(** [from.match(/<([^>]+)>/)?.[1]]: the text between the first [<] that is
    followed by one character or more other than [>] and then by [>]. *)
Fixpoint angleAddress (l : list ascii) : option (list ascii) :=
  match l with
  | [] => None
  | c :: r =>
      if Ascii.eqb c "<" then
        let inner := upToGt r in
        match inner, drop (length inner) r with
        | _ :: _, _ :: _ => Some inner
        | _, _ => angleAddress r
        end
      else angleAddress r
  end.

Definition fromAddressOf (from : string) : string :=
  match angleAddress (chars from) with
  | Some a => str a
  | None => from
  end.

(** The test of one mapping against the address. *)
Definition patternMatches (fromAddress p : string) : bool :=
  if startsWith "*@" p then
    let domain := substringFrom 2 p in
    endsWith ("@" +:+ domain) fromAddress || endsWith ("." +:+ domain) fromAddress
  else bool_decide (toLowerCase fromAddress = toLowerCase p).

(** [new Map(entitiesData.map(e => [e.id, e.name]))] *)
Definition entityMapOf (entitiesData : list Entity) : gmap string string :=
  fold_left (fun m e => <[entity_id e := entity_name e]> m) entitiesData ∅.

(** [entityMap.get(id) || null] *)
Definition entityNameOf (entityMap : gmap string string) (id : string) : option string :=
  match entityMap !! id with
  | Some name => if truthy name then Some name else None
  | None => None
  end.

(** The loop over [allMappings], which stops at the first match; the result
    is [(matchedEntityId, matchedEntityName)]. *)
Fixpoint matchMappings (entityMap : gmap string string) (entityIds : list string)
    (fromAddress : string) (allMappings : list EmailMapping)
    : option string * option string :=
  match allMappings with
  | [] => (None, None)
  | mapping :: rest =>
      if bool_decide (mapping_entityId mapping ∈ entityIds)
         && patternMatches fromAddress (mapping_pattern mapping)
      then (Some (mapping_entityId mapping),
            entityNameOf entityMap (mapping_entityId mapping))
      else matchMappings entityMap entityIds fromAddress rest
  end.

Definition matchEntity (entitiesData : list Entity) (allMappings : list EmailMapping)
    (entityIds : list string) (from : string) : option string * option string :=
  matchMappings (entityMapOf entitiesData) entityIds (fromAddressOf from) allMappings.

(** ** The archive, item by item *)

(** How many of the items handled before [item] have its key. *)
Definition earlierSameKey (w : World) (earlier : list Item) (item : Item) : nat :=
  length (List.filter (fun i => bool_decide (fileKeyOf w i = fileKeyOf w item)) earlier).

(** The suffix of the base file name of an item that comes after [n] items
    of the same key. *)
Definition counterSuffix (n : nat) : string :=
  match n with
  | O => EmptyString
  | S _ => "_" +:+ ofNat n
  end.

(** The folder and the base file name of the combined pair of an item. *)
Definition combinedStem (w : World) (earlier : list Item) (item : Item) : string :=
  fileKeyOf w item +:+ counterSuffix (earlierSameKey w earlier item).

(** The pages that a PDF attachment adds to the combined document. *)
Definition spliced (w : World) (att : DownloadedAttachment) : list Page :=
  snd (splicePreview w att []).

(** The pages of the combined PDF of an item. *)
Definition combinedPages (w : World) (item : Item)
    (attachments : list DownloadedAttachment) : list Page :=
  let base := generateBasePdf w item attachments in
  let final := base ++ flat_map (spliced w) (List.filter da_isPdf attachments) in
  if pdfLibReads w base && pdfLibSaves w final then final else base.

(** The attachments of an item whose fetch returns, with their bytes. *)
Definition fetched (w : World) (item : Item) : list (AttachmentRef * Buffer) :=
  omap (fun att =>
          match downloadAttachment w (item_messageId item) (att_id att)
                  (item_accountIndex item) with
          | Ok buffer => Some (att, buffer)
          | Throw _ => None
          end)
       (item_attachments item).

(** The entries that one item adds to the archive. *)
Definition itemEntries (w : World) (earlier : list Item) (item : Item) : list Entry :=
  let attachments := downloadAttachments w item in
  [ {| entry_name := combinedStem w earlier item +:+ "_combined.pdf";
       entry_data := PdfFile (combinedPages w item attachments) |};
    {| entry_name := combinedStem w earlier item +:+ "_combined.json";
       entry_data := JsonFile (generateJsonRecord w item attachments) |} ]
  ++ map (rawEntry w item) attachments.

Fixpoint bundleEntries (w : World) (earlier items : list Item) : list Entry :=
  match items with
  | [] => []
  | item :: rest => itemEntries w earlier item ++ bundleEntries w (earlier ++ [item]) rest
  end.

(** [fileCounters] after the items [done]: a key seen [n + 1] times is at [n]. *)
Definition countersAgree (w : World) (counters : gmap string nat) (done : list Item) : Prop :=
  forall key,
    counters !! key
    = match length (List.filter (fun i => bool_decide (fileKeyOf w i = key)) done) with
      | O => None
      | S n => Some n
      end.

(** ** The shape of a sanitized name *)

Module Shape.

(** The first character, if any, is not an underscore. *)
Definition headNot (l : list ascii) : Prop :=
  match l with
  | c :: _ => isUnderscore c = false
  | [] => True
  end.

(** No two underscores are adjacent. *)
Fixpoint noAdj (l : list ascii) : Prop :=
  match l with
  | [] => True
  | c :: r => (isUnderscore c = true -> headNot r) /\ noAdj r
  end.

Definition plain (c : ascii) : Prop := isForbidden c = false /\ isSpace c = false.

(** What every output of [sanitizeChars] satisfies. *)
Record tidy (l : list ascii) : Prop := Tidy {
  tidy_plain : Forall plain l;
  tidy_noAdj : noAdj l;
  tidy_head : headNot l;
  tidy_length : length l <= 80
}.

End Shape.

(** ** A mailbox to run the code on *)

Module Demo.

Definition bytesOf (s : string) : Buffer := String.list_byte_of_string s.

(** A process in UTC that knows one date; an attachment store with three
    files; a pdf-lib that reads what starts with the PDF magic number. *)
Definition world : World :=
  {| newDate := fun dateStr =>
       if bool_decide (dateStr = "2024-03-15")
       then Some {| localYear := 2024; localMonth := 2; localDay := 15;
                    isoText := "2024-03-15T00:00:00.000Z" |}
       else None;
     downloadAttachment := fun messageId attachmentId accountIndex =>
       if bool_decide (attachmentId = "att-invoice") then Ok (bytesOf "%PDF-1.7 invoice")
       else if bool_decide (attachmentId = "att-figures") then Ok (bytesOf "PK figures")
       else if bool_decide (attachmentId = "att-scan") then Ok (bytesOf "damaged scan")
       else Throw "Requested entity was not found.";
     stripHtmlTags := fun html => html;
     pdfkitImage := fun _ => true;
     pdfLibLoad := fun buffer =>
       match buffer with
       | Byte.x25 :: Byte.x50 :: Byte.x44 :: Byte.x46 :: _ => Ok 7
       | _ => Throw "Failed to parse PDF document"
       end;
     pdfLibDrawText := fun _ => true;
     pdfLibReads := fun _ => true;
     pdfLibSaves := fun _ => true |}.

Definition xlsxMime : string :=
  "application/vnd.openxmlformats-officedocument.spreadsheetml.sheet".

Definition invoicePdf : AttachmentRef :=
  {| att_id := "att-invoice"; att_filename := "invoice.pdf";
     att_mimeType := "application/pdf"; att_size := 16 |}.

Definition figuresXlsx : AttachmentRef :=
  {| att_id := "att-figures"; att_filename := "figures.xlsx";
     att_mimeType := xlsxMime; att_size := 10 |}.

Definition scanPdf : AttachmentRef :=
  {| att_id := "att-scan"; att_filename := "scan.pdf";
     att_mimeType := "application/pdf"; att_size := 12 |}.

Definition lostPdf : AttachmentRef :=
  {| att_id := "att-lost"; att_filename := "lost.pdf";
     att_mimeType := "application/pdf"; att_size := 99 |}.

Definition mailWith (atts : list AttachmentRef) : Item :=
  {| item_messageId := "18e3f0a1b2c3d4e5";
     item_accountIndex := 1;
     item_subject := "March Invoice";
     item_from := "Acme Billing <billing@acme.com>";
     item_to := "accounts@example.org";
     item_cc := EmptyString;
     item_date := "2024-03-15";
     item_bodyText := "Please find the invoice attached.";
     item_bodyHtml := EmptyString;
     item_entityName := Some "Acme Corp";
     item_attachments := atts |}.

(** The mail of the scenario: a PDF and a spreadsheet. *)
Definition invoiceMail : Item := mailWith [invoicePdf; figuresXlsx].

(** A mail with an attachment that cannot be fetched and a PDF that cannot
    be parsed. *)
Definition troubledMail : Item := mailWith [lostPdf; scanPdf; figuresXlsx].

Definition plainMail : Item := mailWith [].

(** A mail with the invoice alone. *)
Definition singleMail : Item := mailWith [invoicePdf].

Definition entities : list Entity :=
  [ {| entity_id := "e1"; entity_name := "Acme Corp" |} ].

(** A subject of 70 letters. *)
Definition longSubject : string :=
  "aaaaaaaaaabbbbbbbbbbccccccccccddddddddddeeeeeeeeeeffffffffffgggggggggg".

(** 79 letters, a space and one letter more. *)
Definition cutAtUnderscore : string :=
  "aaaaaaaaaabbbbbbbbbbccccccccccddddddddddeeeeeeeeeeffffffffffgggggggggghhhhhhhhh i".



End Demo.

(** ** The words of the specification, to compare the code with *)

Module Spec.

(** [sanitizeSegment(raw, maxLen)] with its placeholder: strip the character
    set, collapse runs of whitespace to one underscore, collapse repeated
    underscores, trim leading and trailing underscores, truncate to
    [maxLen]; an empty result falls back to the placeholder. *)
Definition sanitizeSegment (maxLen : nat) (placeholder raw : string) : string :=
  orElse
    (str (take maxLen
       (stripTrailing (stripLeading
          (squeeze isUnderscore false
             (squeeze isSpace false (stripForbidden (chars raw))))))))
    placeholder.

(** The three files of an attachment share one stem: the raw file is the
    stem and an extension, the combined pair is the stem and the two
    endings. *)
Definition sharesStem (raw pdf json : string) : Prop :=
  exists stem ext,
    raw = stem +:+ ext
    /\ pdf = stem +:+ "_combined.pdf"
    /\ json = stem +:+ "_combined.json".

End Spec.

(** ** Further definitions *)

(** A mapping that the loop stops at. *)
Definition selects (entityIds : list string) (fromAddress : string)
    (mapping : EmailMapping) : Prop :=
  In (mapping_entityId mapping) entityIds
  /\ patternMatches fromAddress (mapping_pattern mapping) = true.


(** ** [GET /api/attachments/:accountIndex/:messageId/:attachmentId] *)

Definition isLineBreak (c : ascii) : bool :=
  (code c =? 13) || (code c =? 10).

(** [(req.query.filename || "attachment").replace(/[\r\n]/g, '')] *)
Definition downloadFilename (queryFilename : option string) : string :=
  str (List.filter (fun c => negb (isLineBreak c))
         (chars (orElseNull queryFilename "attachment"))).

(** The value of the [Content-Disposition] header of the answer. *)
Definition contentDisposition (queryFilename : option string) : string :=
  "attachment; filename=" +:+ String dquote EmptyString
  +:+ downloadFilename queryFilename +:+ String dquote EmptyString.

(** A text of [n] digits. *)
Definition digitsOfWidth (n : nat) (s : string) : bool :=
  (length (chars s) =? n) && allDigits (chars s).

(** The number that a text of decimal digits writes. *)
Definition readDecimal (s : string) : Z :=
  fold_left (fun n c => (10 * n + (Z.of_nat (code c) - 48))%Z) (chars s) 0%Z.

(** ** The Gmail query of [server/gmail.ts] *)

Module Gmail.

(** [s.trim()]: the white space at both ends is removed. *)
Fixpoint trimStart (l : list ascii) : list ascii :=
  match l with
  | [] => []
  | c :: r => if isSpace c then trimStart r else l
  end.

Definition trimChars (l : list ascii) : list ascii :=
  rev (trimStart (rev (trimStart l))).

Definition trim (s : string) : string := str (trimChars (chars s)).

(** [parts.join(sep)] *)
Fixpoint join (sep : string) (parts : list string) : string :=
  match parts with
  | [] => EmptyString
  | [p] => p
  | p :: rest => p +:+ sep +:+ join sep rest
  end.

(** The clause of one pattern. *)
Definition fromClause (p : string) : string :=
  if startsWith "*@" p then "from:" +:+ substringFrom 2 p else "from:" +:+ p.

(** [buildGmailQuery]; [daysAgo n] is the calendar date that
    [date.setDate(date.getDate() - n)] reaches from the present day, and
    [daysBack] is an integer. *)
Definition buildGmailQuery (daysAgo : Z -> DateFields)
    (entityPatterns : list string) (searchTerms : string) (daysBack : Z) : string :=
  let terms :=
    if truthy (trim searchTerms) then ["(" +:+ trim searchTerms +:+ ")"] else [] in
  let froms :=
    match entityPatterns with
    | [] => []
    | _ :: _ => ["{" +:+ join " " (map fromClause entityPatterns) +:+ "}"]
    end in
  let after :=
    if (0 <? daysBack)%Z then
      let date := daysAgo daysBack in
      let formatted :=
        ofZ (localYear date) +:+ "/" +:+ padStart2 (ofZ (localMonth date + 1))
        +:+ "/" +:+ padStart2 (ofZ (localDay date)) in
      ["after:" +:+ formatted]
    else [] in
  join " " (terms ++ froms ++ after ++ ["has:attachment"]).

(** *** The names of the parts without a file name *)

(** The table of [getExtFromMime]. *)
Definition extTable : list (string * string) :=
  [ ("application/pdf", "pdf");
    ("image/png", "png");
    ("image/jpeg", "jpg");
    ("image/gif", "gif");
    ("text/plain", "txt");
    ("text/html", "html");
    ("application/msword", "doc");
    ("application/vnd.openxmlformats-officedocument.wordprocessingml.document", "docx");
    ("application/vnd.ms-excel", "xls");
    ("application/vnd.openxmlformats-officedocument.spreadsheetml.sheet", "xlsx") ].

(** The properties that the object of the table inherits. *)
Definition inheritedNames : list string :=
  [ "constructor"; "__proto__"; "hasOwnProperty"; "isPrototypeOf";
    "propertyIsEnumerable"; "toLocaleString"; "toString"; "valueOf";
    "__defineGetter__"; "__defineSetter__"; "__lookupGetter__"; "__lookupSetter__" ].

Fixpoint lookupExt (mimeType : string) (table : list (string * string)) : option string :=
  match table with
  | [] => None
  | (k, v) :: r => if bool_decide (k = mimeType) then Some v else lookupExt mimeType r
  end.

(** [map[mimeType] || 'bin']: the extension of the table, [bin] for a type
    that is not in it; [None] stands for the inherited property, which is not
    a text, that the lookup gives for one of the inherited names. *)
Definition getExtFromMime (mimeType : string) : option string :=
  match lookupExt mimeType extTable with
  | Some ext => Some ext
  | None => if bool_decide (mimeType ∈ inheritedNames) then None else Some "bin"
  end.

(** [`inline_${part.partId || 'unknown'}.${ext}`], the file name that
    [searchMessages] gives to a part without one. *)
Definition fallbackFilename (partId : option string) (ext : string) : string :=
  "inline_" +:+ orElseNull partId "unknown" +:+ "." +:+ ext.

End Gmail.

(** ** The store of the entities and their patterns *)

Module Storage.

(** A [Map] with its insertion order: the keys are distinct. *)
Fixpoint mapSet {V : Type} (key : string) (v : V) (m : list (string * V))
    : list (string * V) :=
  match m with
  | [] => [(key, v)]
  | (k, v') :: r =>
      if bool_decide (k = key) then (k, v) :: r else (k, v') :: mapSet key v r
  end.

Definition mapDelete {V : Type} (key : string) (m : list (string * V))
    : list (string * V) :=
  List.filter (fun kv => negb (bool_decide (fst kv = key))) m.

(** Whether the loop of [deleteEntity] over [l] deletes the entry [kv]. *)
Definition deletes {V : Type} (P : V -> bool) (l : list (string * V))
    (kv : string * V) : bool :=
  existsb (fun kv' => P (snd kv') && bool_decide (fst kv' = fst kv)) l.

(** [InMemoryStorage]: the two maps, and how many identifiers the process
    has drawn; [randomUUID n] is the text of the draw number [n]. *)
Record Store : Type := {
  entities : list (string * Entity);
  mappings : list (string * EmailMapping);
  draws : nat
}.

Definition emptyStore : Store := {| entities := []; mappings := []; draws := 0 |}.

Section Operations.
Variable randomUUID : nat -> string.

Definition getEntities (st : Store) : list Entity := map snd (entities st).

(** [getMappings(entityId?)]: an absent or empty identifier gives them all. *)
Definition getMappings (entityId : option string) (st : Store) : list EmailMapping :=
  let all := map snd (mappings st) in
  match entityId with
  | Some id =>
      if truthy id
      then List.filter (fun m => bool_decide (mapping_entityId m = id)) all
      else all
  | None => all
  end.

Definition createEntity (name : string) (st : Store) : Entity * Store :=
  let record := {| entity_id := randomUUID (draws st); entity_name := name |} in
  (record,
   {| entities := mapSet (entity_id record) record (entities st);
      mappings := mappings st;
      draws := S (draws st) |}).

Definition createMapping (entityId pattern : string) (st : Store) : Store :=
  let record := {| mapping_entityId := entityId; mapping_pattern := pattern |} in
  {| entities := entities st;
     mappings := mapSet (randomUUID (draws st)) record (mappings st);
     draws := S (draws st) |}.

(** [deleteEntity]: the entity goes, and each mapping of it is deleted from
    the map, one after the other. *)
Definition deleteEntity (id : string) (st : Store) : Store :=
  {| entities := mapDelete id (entities st);
     mappings :=
       fold_left
         (fun m kv =>
            if bool_decide (mapping_entityId (snd kv) = id)
            then mapDelete (fst kv) m else m)
         (mappings st) (mappings st);
     draws := draws st |}.

Definition deleteMapping (id : string) (st : Store) : Store :=
  {| entities := entities st;
     mappings := mapDelete id (mappings st);
     draws := draws st |}.

Definition bulkImportEntities (data : list (string * list string)) (st : Store) : Store :=
  fold_left
    (fun s item =>
       let '(entity, s1) := createEntity (fst item) s in
       fold_left (fun s2 pattern => createMapping (entity_id entity) pattern s2)
         (snd item) s1)
    data st.

(** [GET /api/entities]: each entity with the patterns of its mappings. *)
Definition listEntities (st : Store) : list (Entity * list string) :=
  let ents := getEntities st in
  let maps := getMappings None st in
  map (fun e =>
         (e, map mapping_pattern
               (List.filter (fun m => bool_decide (mapping_entityId m = entity_id e)) maps)))
      ents.

(** [POST /api/entities] with a name and patterns: the answer and the store. *)
Definition postEntity (name : string) (patterns : list string) (st : Store)
    : (Entity * list string) * Store :=
  let '(entity, s1) := createEntity name st in
  let s2 := fold_left (fun s pattern => createMapping (entity_id entity) pattern s)
              patterns s1 in
  ((entity, map mapping_pattern (getMappings (Some (entity_id entity)) s2)), s2).

(** The patterns of the mappings of an entity. *)
Definition patternsOf (id : string) (maps : list EmailMapping) : list string :=
  map mapping_pattern
    (List.filter (fun m => bool_decide (mapping_entityId m = id)) maps).

(** A list of entities by their names. *)
Definition named (listed : list (Entity * list string)) : list (string * list string) :=
  map (fun ep => (entity_name (fst ep), snd ep)) listed.

(** A store as the operations leave it: the keys of a map are distinct, an
    entity is kept under its identifier, the identifiers in use were drawn,
    no draw is the empty text and no two draws give the same text. *)
Record wellFormed (st : Store) : Prop := WellFormed {
  wf_inj : forall i j, randomUUID i = randomUUID j -> i = j;
  wf_nonempty : forall n, randomUUID n <> EmptyString;
  wf_entity_keys : NoDup (map fst (entities st));
  wf_mapping_keys : NoDup (map fst (mappings st));
  wf_entity_id : forall k e, In (k, e) (entities st) -> entity_id e = k;
  wf_entities_drawn :
    forall k, In k (map fst (entities st)) -> exists n, n < draws st /\ k = randomUUID n;
  wf_mappings_drawn :
    forall k, In k (map fst (mappings st)) -> exists n, n < draws st /\ k = randomUUID n;
  wf_refs_drawn :
    forall k m, In (k, m) (mappings st) ->
      exists n, n < draws st /\ mapping_entityId m = randomUUID n
}.

End Operations.

(** A process whose draw number [n] is a text of [n + 1] letters. *)
Definition demoUUID (n : nat) : string := str (replicate (S n) "u"%char).

End Storage.

(** ** The import of a spreadsheet, [POST /api/entities/import] *)

Module Sheet.
Import Gmail.

(** A cell of a row of [sheet_to_json]; the numbers are integers. *)
Inductive Cell : Type :=
| CellText (s : string)
| CellNumber (z : Z)
| CellBool (b : bool).

Definition cellTruthy (c : Cell) : bool :=
  match c with
  | CellText s => truthy s
  | CellNumber z => negb (z =? 0)%Z
  | CellBool b => b
  end.

(** [String(cell)] *)
Definition cellString (c : Cell) : string :=
  match c with
  | CellText s => s
  | CellNumber z => ofZ z
  | CellBool true => "true"
  | CellBool false => "false"
  end.

(** [String(row[c1] || row[c2] || ... || "")] *)
Fixpoint pick (row : gmap string Cell) (columns : list string) : string :=
  match columns with
  | [] => EmptyString
  | c :: rest =>
      match row !! c with
      | Some cell => if cellTruthy cell then cellString cell else pick row rest
      | None => pick row rest
      end
  end.

Definition isSeparator (c : ascii) : bool :=
  Ascii.eqb c "," || Ascii.eqb c ";".

(** [s.split(/[,;]+/)]: the pieces between the runs of separators, the
    first piece first; [inRun] tells that the previous character was a
    separator. *)
Fixpoint splitChars (inRun : bool) (l : list ascii) : list (list ascii) :=
  match l with
  | [] => [[]]
  | c :: r =>
      if isSeparator c then
        (if inRun then splitChars true r else [] :: splitChars true r)
      else
        match splitChars false r with
        | piece :: pieces => (c :: piece) :: pieces
        | [] => [[c]]
        end
  end.

(** [s.split(/[,;]+/).map(s => s.trim()).filter(Boolean)] *)
Definition splitList (s : string) : list string :=
  List.filter truthy (map (fun piece => trim (str piece)) (splitChars false (chars s))).

(** [entityMap], a [Map] from the names to the arrays of patterns, in the
    order of insertion. *)
Definition has (name : string) (m : list (string * list string)) : bool :=
  existsb (fun kv => bool_decide (fst kv = name)) m.

(** [if (!existing.includes(p)) existing.push(p)] on the array of [name]. *)
Definition addPattern (name p : string) (m : list (string * list string))
    : list (string * list string) :=
  map (fun kv =>
         if bool_decide (fst kv = name)
         then (fst kv, if bool_decide (p ∈ snd kv) then snd kv else snd kv ++ [p])
         else kv)
      m.

Definition nameColumns : list string := ["canonical_name"; "Entity"; "entity"; "Name"; "name"].
Definition emailColumns : list string := ["KNOWN EMAIL"; "Email"; "email"; "Pattern"; "pattern"].
Definition domainColumns : list string := ["KNOWN_DOMAINS"; "Domain"; "domain"; "Domains"].

Definition emailsOf (row : gmap string Cell) : list string :=
  let knownEmails := trim (pick row emailColumns) in
  if truthy knownEmails then splitList knownEmails else [].

Definition domainPatternsOf (row : gmap string Cell) : list string :=
  let knownDomains := trim (pick row domainColumns) in
  if truthy knownDomains
  then map (fun domain => "*@" +:+ domain) (splitList knownDomains)
  else [].

(** One turn of the loop over the rows. *)
Definition importRow (m : list (string * list string)) (row : gmap string Cell)
    : list (string * list string) :=
  let entityName := trim (pick row nameColumns) in
  if truthy entityName then
    let m1 := if has entityName m then m else m ++ [(entityName, [])] in
    let m2 := fold_left (fun s email => addPattern entityName email s) (emailsOf row) m1 in
    fold_left (fun s pattern => addPattern entityName pattern s) (domainPatternsOf row) m2
  else m.

(** [importData]: the names with their patterns. *)
Definition importRows (rows : list (gmap string Cell)) : list (string * list string) :=
  fold_left importRow rows [].

(** What the loop over the rows keeps true of [entityMap]. *)
Definition tidyMap (m : list (string * list string)) : Prop :=
  NoDup (map fst m)
  /\ Forall (fun kv => fst kv <> EmptyString /\ trim (fst kv) = fst kv
                       /\ NoDup (snd kv)
                       /\ Forall (fun p => p <> EmptyString) (snd kv)) m.

(** The name [name] has the pattern [p] in the map. *)
Definition holds (name p : string) (m : list (string * list string)) : Prop :=
  exists patterns, In (name, patterns) m /\ In p patterns.

End Sheet.

(** ** [stripHtmlTags] *)

Module Html.
Import Gmail.

Definition lineFeed : ascii := Ascii.ascii_of_nat 10.
Definition isLineFeed (c : ascii) : bool := Ascii.eqb c lineFeed.

(** [s.replace(pattern, by)] with the flag [g]: [matchAt l] is the length of
    the match of the pattern at the start of [l], and [skip] counts the
    characters of the last match that the scan has yet to pass. *)
Fixpoint replaceAll (matchAt : list ascii -> option nat) (by_ : list ascii)
    (skip : nat) (l : list ascii) : list ascii :=
  match l with
  | [] => []
  | c :: r =>
      match skip with
      | S k => replaceAll matchAt by_ k r
      | O =>
          match matchAt l with
          | Some (S n) => by_ ++ replaceAll matchAt by_ n r
          | _ => c :: replaceAll matchAt by_ 0 r
          end
      end
  end.

(** A text, as it is written. *)
Definition literal (p : string) (l : list ascii) : option nat :=
  if listEqb (take (length (chars p)) l) (chars p) then Some (length (chars p)) else None.

(** A text in lower case, with the flag [i]. *)
Definition literalAnyCase (p : string) (l : list ascii) : option nat :=
  if listEqb (map lowerChar (take (length (chars p)) l)) (chars p)
  then Some (length (chars p)) else None.

(** The number of white spaces at the start. *)
Fixpoint spaces (l : list ascii) : nat :=
  match l with
  | c :: r => if isSpace c then S (spaces r) else 0
  | [] => 0
  end.

(** [/<br\s*\/?>/i] *)
Definition lineBreakTag (l : list ascii) : option nat :=
  match literalAnyCase "<br" l with
  | Some n =>
      let rest := drop n l in
      let ws := spaces rest in
      match drop ws rest with
      | c :: d :: _ =>
          if Ascii.eqb c "/" && Ascii.eqb d ">" then Some (n + ws + 2)
          else if Ascii.eqb c ">" then Some (n + ws + 1) else None
      | [c] => if Ascii.eqb c ">" then Some (n + ws + 1) else None
      | [] => None
      end
  | None => None
  end.

(** [/<[^>]+>/] *)
Definition anyTag (l : list ascii) : option nat :=
  match l with
  | c :: r =>
      if Ascii.eqb c "<" then
        let inner := upToGt r in
        match inner, drop (length inner) r with
        | _ :: _, _ :: _ => Some (length inner + 2)
        | _, _ => None
        end
      else None
  | [] => None
  end.

(** The number of line feeds at the start. *)
Fixpoint lineFeeds (l : list ascii) : nat :=
  match l with
  | c :: r => if isLineFeed c then S (lineFeeds r) else 0
  | [] => 0
  end.

(** [/\n{3,}/] *)
Definition threeLineFeeds (l : list ascii) : option nat :=
  if 3 <=? lineFeeds l then Some (lineFeeds l) else None.

Definition apostrophe : ascii := Ascii.ascii_of_nat 39.

(** The replacements of [stripHtmlTags], in the order of the source. *)
Definition replacements : list ((list ascii -> option nat) * list ascii) :=
  [ (lineBreakTag, [lineFeed]);
    (literalAnyCase "</p>", [lineFeed; lineFeed]);
    (literalAnyCase "</div>", [lineFeed]);
    (literalAnyCase "</li>", [lineFeed]);
    (anyTag, []);
    (literal "&nbsp;", [" "%char]);
    (literal "&amp;", ["&"%char]);
    (literal "&lt;", ["<"%char]);
    (literal "&gt;", [">"%char]);
    (literal "&quot;", [dquote]);
    (literal "&#39;", [apostrophe]);
    (threeLineFeeds, [lineFeed; lineFeed]) ].

Definition stripHtmlTags (html : string) : string :=
  str (trimChars
         (fold_left (fun l r => replaceAll (fst r) (snd r) 0 l) replacements (chars html))).

(** The last replacement. *)
Definition collapse (l : list ascii) : list ascii :=
  replaceAll threeLineFeeds [lineFeed; lineFeed] 0 l.

(** No three line feeds in a row. *)
Fixpoint sparse (l : list ascii) : Prop :=
  match l with
  | [] => True
  | _ :: r => lineFeeds l < 3 /\ sparse r
  end.

(** The characters that start a tag or an entity. *)
Definition markup (c : ascii) : bool := Ascii.eqb c "<" || Ascii.eqb c "&".

Definition startsMarkup (p : string) : bool :=
  match chars p with
  | x :: _ => markup x
  | [] => false
  end.

End Html.

(** ** The parts of a message: [extractParts] of [searchMessages] *)

Module Mime.
Import Gmail.

(** A header of a part; a field that the answer of the API leaves out is
    [None]. *)
Record Header := {
  header_name : option string;
  header_value : option string
}.

Record Body := {
  body_data : option string;
  body_attachmentId : option string;
  body_size : option Z
}.

(** A part of the payload, with the parts it holds. *)
Inductive Part : Type :=
  MkPart (parts : option (list Part)) (mimeType : option string) (body : option Body)
         (filename : option string) (partId : option string)
         (headers : option (list Header)).

Definition part_parts (p : Part) : option (list Part) :=
  match p with MkPart parts _ _ _ _ _ => parts end.
Definition part_mimeType (p : Part) : option string :=
  match p with MkPart _ mimeType _ _ _ _ => mimeType end.
Definition part_body (p : Part) : option Body :=
  match p with MkPart _ _ body _ _ _ => body end.
Definition part_filename (p : Part) : option string :=
  match p with MkPart _ _ _ filename _ _ => filename end.
Definition part_partId (p : Part) : option string :=
  match p with MkPart _ _ _ _ partId _ => partId end.
Definition part_headers (p : Part) : option (list Header) :=
  match p with MkPart _ _ _ _ _ headers => headers end.

Record AttachmentInfo := {
  att_id : string;
  att_messageId : string;
  att_filename : string;
  att_mimeType : string;
  att_size : Z;
  att_isInline : bool;
  att_accountIndex : Z
}.

(** The three variables that the closure [extractParts] writes. *)
Record Extracted := {
  attachments : list AttachmentInfo;
  bodyText : string;
  bodyHtml : string
}.

Definition nothing : Extracted :=
  {| attachments := []; bodyText := EmptyString; bodyHtml := EmptyString |}.

(** A text that is there and is not empty. *)
Definition present (s : option string) : option string :=
  match s with
  | Some v => if truthy v then Some v else None
  | None => None
  end.

(** [part.body?.data] and [part.body?.attachmentId], where they are truthy. *)
Definition dataOf (body : option Body) : option string :=
  match body with
  | Some b => present (body_data b)
  | None => None
  end.

Definition attachmentIdOf (body : option Body) : option string :=
  match body with
  | Some b => present (body_attachmentId b)
  | None => None
  end.

(** [part.body.size || 0] *)
Definition sizeOf (body : option Body) : Z :=
  match body with
  | Some b => match body_size b with Some n => n | None => 0%Z end
  | None => 0%Z
  end.

(** [s.includes(p)] *)
Fixpoint includesChars (p l : list ascii) : bool :=
  listEqb (take (length p) l) p
  || match l with
     | [] => false
     | _ :: r => includesChars p r
     end.

Definition includes (p s : string) : bool := includesChars (chars p) (chars s).

(** The test of [part.headers?.find(...)]. *)
Definition saysInline (h : Header) : bool :=
  match header_name h with
  | Some name =>
      bool_decide (toLowerCase name = "content-disposition")
      && match header_value h with
         | Some value => includes "inline" (toLowerCase value)
         | None => false
         end
  | None => false
  end.

Definition hasInlineHeader (headers : option (list Header)) : bool :=
  match headers with
  | Some hs => existsb saysInline hs
  | None => false
  end.

Section Extract.

(** [Buffer.from(data, 'base64url').toString('utf-8')], the text that a
    template gives for an inherited property of the table of
    [getExtFromMime], and the message and the account of the search. *)
Variable decode : string -> string.
Variable nativeText : string -> string.
Variable msgId : string.
Variable accountIndex : Z.

(** [`${getExtFromMime(part.mimeType)}`]; a part without a type is looked
    up under the key [undefined]. *)
Definition extText (mimeType : option string) : string :=
  let key := match mimeType with Some m => m | None => "undefined" end in
  match getExtFromMime key with
  | Some ext => ext
  | None => nativeText key
  end.

(** The body of the loop of [extractParts] after the descent into
    [part.parts]. *)
Definition extractOwn (parentIsRelated : bool) (mimeType : option string)
    (body : option Body) (filename partId : option string)
    (headers : option (list Header)) (st : Extracted) : Extracted :=
  let st1 :=
    match dataOf body with
    | Some data =>
        if bool_decide (mimeType = Some "text/plain") && negb (truthy (bodyText st))
        then {| attachments := attachments st; bodyText := decode data;
                bodyHtml := bodyHtml st |}
        else st
    | None => st
    end in
  let st2 :=
    match dataOf body with
    | Some data =>
        if bool_decide (mimeType = Some "text/html") && negb (truthy (bodyHtml st1))
        then {| attachments := attachments st1; bodyText := bodyText st1;
                bodyHtml := decode data |}
        else st1
    | None => st1
    end in
  match attachmentIdOf body with
  | Some attachmentId =>
      let isInline :=
        hasInlineHeader headers
        || (negb (truthy (orElseNull filename EmptyString)) && parentIsRelated) in
      {| attachments :=
           attachments st2
           ++ [ {| att_id := attachmentId;
                   att_messageId := msgId;
                   att_filename :=
                     orElseNull filename (fallbackFilename partId (extText mimeType));
                   att_mimeType := orElseNull mimeType "application/octet-stream";
                   att_size := sizeOf body;
                   att_isInline := isInline;
                   att_accountIndex := accountIndex |} ];
         bodyText := bodyText st2;
         bodyHtml := bodyHtml st2 |}
  | None => st2
  end.

(** One turn of the loop of [extractParts]. *)
Fixpoint extractPart (parentIsRelated : bool) (part : Part) (st : Extracted)
    {struct part} : Extracted :=
  match part with
  | MkPart parts mimeType body filename partId headers =>
      let st0 :=
        match parts with
        | Some ps =>
            let isRelated := bool_decide (mimeType = Some "multipart/related") in
            fold_left (fun s p => extractPart (isRelated || parentIsRelated) p s) ps st
        | None => st
        end in
      extractOwn parentIsRelated mimeType body filename partId headers st0
  end.

(** [extractParts(parts, parentIsRelated)] *)
Definition extractParts (parts : list Part) (parentIsRelated : bool)
    (st : Extracted) : Extracted :=
  fold_left (fun s p => extractPart parentIsRelated p s) parts st.

(** What [searchMessages] takes from [full.data.payload]. *)
Definition extractPayload (payload : option Part) : Extracted :=
  match payload with
  | Some (MkPart (Some ps) _ _ _ _ _) => extractParts ps false nothing
  | Some (MkPart None mimeType body filename _ _) =>
      match dataOf body with
      | Some data =>
          let mime := orElseNull mimeType EmptyString in
          let decoded := decode data in
          {| attachments := [];
             bodyText := if bool_decide (mime = "text/plain") then decoded else EmptyString;
             bodyHtml := if bool_decide (mime = "text/html") then decoded else EmptyString |}
      | None =>
          match attachmentIdOf body with
          | Some attachmentId =>
              {| attachments :=
                   [ {| att_id := attachmentId;
                        att_messageId := msgId;
                        att_filename := orElseNull filename "attachment";
                        att_mimeType := orElseNull mimeType "application/octet-stream";
                        att_size := sizeOf body;
                        att_isInline := false;
                        att_accountIndex := accountIndex |} ];
                 bodyText := EmptyString;
                 bodyHtml := EmptyString |}
          | None => nothing
          end
      end
  | None => nothing
  end.

End Extract.

(** The route [POST /api/query/run] on the attachments of one result. *)
Definition shownAttachments (includeInline : bool) (l : list AttachmentInfo)
    : list AttachmentInfo :=
  if includeInline then l else List.filter (fun a => negb (att_isInline a)) l.

(** The attachment ids of a tree of parts, those of the parts that a part
    holds before its own. *)
Fixpoint attachmentIds (part : Part) : list string :=
  match part with
  | MkPart parts _ body _ _ _ =>
      match parts with
      | Some ps => flat_map attachmentIds ps
      | None => []
      end
      ++ match attachmentIdOf body with
         | Some attachmentId => [attachmentId]
         | None => []
         end
  end.

(** The file names that the parts of a tree carry. *)
Fixpoint filenames (part : Part) : list string :=
  match part with
  | MkPart parts _ _ filename _ _ =>
      match parts with
      | Some ps => flat_map filenames ps
      | None => []
      end
      ++ match present filename with
         | Some name => [name]
         | None => []
         end
  end.

(** The data of the parts of a tree that are of the type [mime], in the
    order of the loop. *)
Fixpoint dataOfType (mime : string) (part : Part) : list string :=
  match part with
  | MkPart parts mimeType body _ _ _ =>
      match parts with
      | Some ps => flat_map (dataOfType mime) ps
      | None => []
      end
      ++ match dataOf body with
         | Some data => if bool_decide (mimeType = Some mime) then [data] else []
         | None => []
         end
  end.

(** The first text of a list that is not empty; the empty text if there is
    none. *)
Fixpoint firstTruthy (l : list string) : string :=
  match l with
  | [] => EmptyString
  | s :: r => if truthy s then s else firstTruthy r
  end.

(** An attachment that is inline, or that has one of the names. *)
Definition inlineOrNamed (names : list string) (a : AttachmentInfo) : Prop :=
  att_isInline a = false -> In (att_filename a) names.

(** The two texts after a part, from the texts before it. *)
Definition textsAfter (decode : string -> string) (st : Extracted) (plain html : list string) (st' : Extracted) : Prop :=
  bodyText st'
  = (if truthy (bodyText st) then bodyText st else firstTruthy (map decode plain))
  /\ bodyHtml st'
     = (if truthy (bodyHtml st) then bodyHtml st else firstTruthy (map decode html)).

End Mime.

(** ** The names that the page shows *)

Module Client.

(** [sanitizeForFilename] of the page: the replacements and the cut of
    [sanitizeFolderName], without its alternative [Unknown].  The page has
    an [isGenericFilename] of its own with the text of that of the server. *)
Definition sanitizeForFilename (s : string) : string := str (sanitizeChars (chars s)).

(** [getCleanAttachmentName(original, subject)], the name that the list of
    results shows for an attachment. *)
Definition getCleanAttachmentName (original : string) (subject : option string) : string :=
  match subject with
  | Some text =>
      if isGenericFilename original && truthy text
      then sanitizeForFilename text +:+ extensionOf original
      else original
  | None => original
  end.

End Client.

(** ** [searchMessages] *)

Module Search.
Import Mime.

(** An element of [listRes.data.messages]. *)
Record MessageRef := {
  ref_id : string;
  ref_threadId : string
}.

(** What [gmail.users.messages.get] returns, as far as it is read. *)
Record Full := {
  full_payload : option Part;
  full_snippet : option string
}.

Record MessageResult := {
  mr_id : string;
  mr_threadId : string;
  mr_subject : string;
  mr_from : string;
  mr_to : string;
  mr_cc : string;
  mr_date : string;
  mr_snippet : string;
  mr_bodyText : string;
  mr_bodyHtml : string;
  mr_accountIndex : Z;
  mr_attachments : list AttachmentInfo
}.

(** [full.data.payload?.headers || []] *)
Definition headersOf (full : Full) : list Header :=
  match full_payload full with
  | Some p => default [] (part_headers p)
  | None => []
  end.

(** [headers.find(h => h.name?.toLowerCase() === name.toLowerCase())?.value || ''] *)
Definition getHeader (headers : list Header) (name : string) : string :=
  match
    List.find
      (fun h =>
         match header_name h with
         | Some n => bool_decide (toLowerCase n = toLowerCase name)
         | None => false
         end)
      headers
  with
  | Some h => orElseNull (header_value h) EmptyString
  | None => EmptyString
  end.

Section Search.

Variable decode : string -> string.
Variable nativeText : string -> string.

(** The calls that may throw: [getGmailClient] followed by the list of the
    messages of the query, and the fetch of the message of an id. *)
Variable listMessages : result (option (list MessageRef)).
Variable getMessage : string -> result Full.
Variable accountIndex : Z.

(** The result that the body of the [try] pushes. *)
Definition messageResult (msg : MessageRef) (full : Full) : MessageResult :=
  let headers := headersOf full in
  let st := extractPayload decode nativeText (ref_id msg) accountIndex (full_payload full) in
  {| mr_id := ref_id msg;
     mr_threadId := ref_threadId msg;
     mr_subject := getHeader headers "Subject";
     mr_from := getHeader headers "From";
     mr_to := getHeader headers "To";
     mr_cc := getHeader headers "Cc";
     mr_date := getHeader headers "Date";
     mr_snippet := orElseNull (full_snippet full) EmptyString;
     mr_bodyText := bodyText st;
     mr_bodyHtml := bodyHtml st;
     mr_accountIndex := accountIndex;
     mr_attachments := attachments st |}.

(** [searchMessages]: a message whose fetch throws is logged and left out;
    the list of the messages is asked for outside of any [try]. *)
Definition searchMessages : result (list MessageResult) :=
  listed ← listMessages;
  mret
    (fold_left
       (fun results msg =>
          catchWith
            (full ← getMessage (ref_id msg);
             mret (results ++ [messageResult msg full]))
            (fun _ => results))
       (default [] listed) []).

(** The fetch of a message returns. *)
Definition fetches (msg : MessageRef) : bool :=
  match getMessage (ref_id msg) with
  | Ok _ => true
  | Throw _ => false
  end.

End Search.

End Search.

(** * Properties *)

(** ** Characters and strings *)

Lemma chars_str l : chars (str l) = l.
Proof. apply String.list_ascii_of_string_of_list_ascii. Qed.

Lemma str_chars s : str (chars s) = s.
Proof. apply String.string_of_list_ascii_of_string. Qed.

Lemma str_inj l k : str l = str k -> l = k.
Proof. intros H. rewrite <- (chars_str l), <- (chars_str k). by rewrite H. Qed.

Lemma chars_inj s t : chars s = chars t -> s = t.
Proof. intros H. rewrite <- (str_chars s), <- (str_chars t). by rewrite H. Qed.

Lemma chars_app s t : chars (s +:+ t) = chars s ++ chars t.
Proof. induction s as [|c s IH]; simpl; [done|]. by rewrite IH. Qed.

Lemma str_app l k : str (l ++ k) = str l +:+ str k.
Proof. apply chars_inj. by rewrite chars_app, !chars_str. Qed.

Example sanitize_ex1 : sanitizeFolderName "Acme  Corp: <Ltd>" = "Acme_Corp_Ltd".
Proof. vm_compute. reflexivity. Qed.
Example sanitize_ex2 : sanitizeFolderName " ?? " = "Unknown".
Proof. vm_compute. reflexivity. Qed.
Example sanitize_ex3 : sanitizeFolderName "__a__b_ _" = "a_b".
Proof. vm_compute. reflexivity. Qed.
Example generic_ex1 : map isGenericFilename
  ["inline_1.pdf"; "attachment.pdf"; "noname.jpg"; "ATT00001.htm"; "Unnamed file.doc";
   "image003.png"; "file_7"; "invoice-march.pdf"; "noname7.jpg"; "att.txt"; "inline."]
  = [true; true; true; true; true; true; true; false; false; false; false].
Proof. vm_compute. reflexivity. Qed.
Example clean_ex1 : cleanAttachmentName "inline_1.pdf" "March Invoice" = "March_Invoice.pdf".
Proof. vm_compute. reflexivity. Qed.
Example clean_ex2 : cleanAttachmentName "archive.tar.gz" "x" = "archive.tar.gz".
Proof. vm_compute. reflexivity. Qed.
Example ext_ex : map extensionOf ["a.tar.gz"; "abc"; "inline."] = [".gz"; EmptyString; "."].
Proof. vm_compute. reflexivity. Qed.

(** ** The shape of a sanitized name *)

Module SanitizeFacts.

Import Shape.

Lemma plain_underscore : plain underscore.
Proof. split; reflexivity. Qed.

Lemma stripForbidden_spec l :
  Forall (fun c => isForbidden c = false) (stripForbidden l).
Proof.
  induction l as [|c l IH]; simpl; [constructor|].
  destruct (isForbidden c) eqn:E; simpl; [exact IH|].
  constructor; assumption.
Qed.

Lemma squeeze_space_plain b l :
  Forall (fun c => isForbidden c = false) l ->
  Forall plain (squeeze isSpace b l).
Proof.
  intros H. revert b. induction H as [|c l Hc _ IH]; intros b; simpl; [constructor|].
  destruct (isSpace c) eqn:E.
  - destruct b; [apply IH|]. constructor; [apply plain_underscore | apply IH].
  - constructor; [split; assumption | apply IH].
Qed.

Lemma squeeze_Forall (P : ascii -> Prop) p b l :
  P underscore -> Forall P l -> Forall P (squeeze p b l).
Proof.
  intros Hu H. revert b. induction H as [|c l Hc _ IH]; intros b; simpl; [constructor|].
  destruct (p c); [destruct b|]; try apply IH; constructor; auto.
Qed.

Lemma squeeze_underscore_shape l :
  forall b, noAdj (squeeze isUnderscore b l)
            /\ (b = true -> headNot (squeeze isUnderscore b l)).
Proof.
  induction l as [|c l IH]; intros b; simpl; [split; [exact I | intros _; exact I]|].
  destruct (isUnderscore c) eqn:E.
  - destruct b.
    + apply IH.
    + split; [|discriminate]. simpl. split; [|apply IH].
      intros _. apply IH. reflexivity.
  - split; [|intros _; exact E]. simpl. split; [|apply IH].
    rewrite E. discriminate.
Qed.

Lemma stripLeading_Forall (P : ascii -> Prop) l :
  Forall P l -> Forall P (stripLeading l).
Proof.
  intros H. destruct H as [|c l Hc Hl]; simpl; [constructor|].
  destruct (isUnderscore c); [assumption | constructor; assumption].
Qed.

Lemma stripLeading_shape l :
  noAdj l -> noAdj (stripLeading l) /\ headNot (stripLeading l).
Proof.
  destruct l as [|c l]; simpl; [tauto|].
  intros [Hh Hl]. destruct (isUnderscore c) eqn:E.
  - split; [assumption | apply Hh; reflexivity].
  - simpl. rewrite E. tauto.
Qed.

Lemma stripTrailing_snoc l c :
  stripTrailing (l ++ [c]) = if isUnderscore c then l else l ++ [c].
Proof.
  induction l as [|d l IH]; simpl; [reflexivity|].
  rewrite IH. destruct (l ++ [c]) eqn:E.
  - destruct l; discriminate.
  - destruct (isUnderscore c); reflexivity.
Qed.

(** Removing a trailing underscore leaves a prefix. *)
Lemma stripTrailing_prefix l : exists k, l = stripTrailing l ++ k.
Proof.
  induction l as [|c l _] using rev_ind; [exists []; reflexivity|].
  rewrite stripTrailing_snoc. destruct (isUnderscore c).
  - exists [c]. reflexivity.
  - exists []. by rewrite app_nil_r.
Qed.

Lemma Forall_prefix (P : ascii -> Prop) l k : Forall P (l ++ k) -> Forall P l.
Proof. rewrite Forall_app. tauto. Qed.

Lemma noAdj_prefix l k : noAdj (l ++ k) -> noAdj l.
Proof.
  induction l as [|c l IH]; simpl; [tauto|].
  intros [Hh Hl]. split; [|auto].
  intros Hc. destruct l as [|d l]; [exact I|]. exact (Hh Hc).
Qed.

Lemma prefix_tidy_parts l k :
  Forall plain (l ++ k) -> noAdj (l ++ k) -> headNot (l ++ k) ->
  Forall plain l /\ noAdj l /\ headNot l.
Proof.
  intros H1 H2 H3. split; [eapply Forall_prefix; eassumption|].
  split; [eapply noAdj_prefix; eassumption|].
  destruct l; [exact I | exact H3].
Qed.

Lemma sanitizeChars_tidy l : tidy (sanitizeChars l).
Proof.
  unfold sanitizeChars.
  set (a := squeeze isUnderscore false (squeeze isSpace false (stripForbidden l))).
  assert (Ha : Forall plain a).
  { apply squeeze_Forall; [apply plain_underscore|].
    apply squeeze_space_plain, stripForbidden_spec. }
  assert (Hb : noAdj a) by apply squeeze_underscore_shape.
  pose proof (stripLeading_Forall plain a Ha) as Hc.
  destruct (stripLeading_shape a Hb) as [Hd He].
  set (b := stripLeading a) in *.
  destruct (stripTrailing_prefix b) as [k Hk].
  rewrite Hk in Hc, Hd, He.
  destruct (prefix_tidy_parts _ _ Hc Hd He) as (Hc' & Hd' & He').
  set (c := stripTrailing b) in *.
  rewrite <- (take_drop 80 c) in Hc', Hd', He'.
  destruct (prefix_tidy_parts _ _ Hc' Hd' He') as (H1 & H2 & H3).
  split; try assumption.
  rewrite length_take. lia.
Qed.

(** On a tidy list only the removal of a trailing underscore can act. *)

Lemma stripForbidden_id l :
  Forall plain l -> stripForbidden l = l.
Proof.
  induction 1 as [|c l [Hc _] _ IH]; simpl; [reflexivity|].
  rewrite Hc. simpl. by rewrite IH.
Qed.

Lemma squeeze_space_id l :
  Forall plain l -> forall b, squeeze isSpace b l = l.
Proof.
  induction 1 as [|c l [_ Hc] _ IH]; intros b; simpl; [reflexivity|].
  rewrite Hc. by rewrite IH.
Qed.

Lemma squeeze_underscore_id l :
  forall b, noAdj l -> (b = true -> headNot l) -> squeeze isUnderscore b l = l.
Proof.
  induction l as [|c l IH]; intros b Hn Hh; simpl; [reflexivity|].
  destruct Hn as [Hc Hl].
  destruct (isUnderscore c) eqn:E.
  - destruct b.
    + specialize (Hh eq_refl). simpl in Hh. congruence.
    + apply Ascii.eqb_eq in E. subst c. f_equal. apply IH; auto.
  - f_equal. apply IH; [assumption | discriminate].
Qed.

Lemma stripLeading_id l : headNot l -> stripLeading l = l.
Proof. destruct l as [|c l]; simpl; [reflexivity|]. intros ->. reflexivity. Qed.

Lemma stripTrailing_length l : length (stripTrailing l) <= length l.
Proof.
  destruct (stripTrailing_prefix l) as [k Hk].
  rewrite Hk at 2. rewrite length_app. lia.
Qed.

Lemma sanitizeChars_tidy_arg l : tidy l -> sanitizeChars l = stripTrailing l.
Proof.
  intros [H1 H2 H3 H4]. unfold sanitizeChars.
  rewrite (stripForbidden_id l H1), (squeeze_space_id l H1 false).
  rewrite (squeeze_underscore_id l false H2) by discriminate.
  rewrite (stripLeading_id l H3).
  apply take_ge. pose proof (stripTrailing_length l). lia.
Qed.

End SanitizeFacts.

(** ** Strings *)

Lemma append_assoc (a b c : string) : (a +:+ b) +:+ c = a +:+ (b +:+ c).
Proof. apply chars_inj. rewrite !chars_app. by rewrite app_assoc. Qed.

Lemma append_empty_r (a : string) : a +:+ EmptyString = a.
Proof. apply chars_inj. rewrite chars_app. apply app_nil_r. Qed.

(** ** Exceptions that the code catches *)

Section Collaborators.
Variable w : World.

Lemma splicePreview_pages att doc :
  snd (splicePreview w att doc) = doc ++ spliced w att.
Proof.
  unfold spliced, splicePreview.
  destruct (pdfLibLoad w (da_buffer att)) as [[|n]|e]; simpl;
    try (by rewrite app_nil_r).
  destruct (pdfLibDrawText w _); reflexivity.
Qed.

Lemma splicePreviews_pages atts doc :
  splicePreviews w atts doc = doc ++ flat_map (spliced w) atts.
Proof.
  unfold splicePreviews. revert doc.
  induction atts as [|att atts IH]; intros doc; simpl.
  - by rewrite app_nil_r.
  - rewrite IH, splicePreview_pages. by rewrite <- app_assoc.
Qed.

(** [generateCombinedPdf] never throws: every failure inside it is caught. *)
Lemma generateCombinedPdf_returns item atts :
  generateCombinedPdf w item atts = Ok (combinedPages w item atts).
Proof.
  unfold generateCombinedPdf, combinedPages.
  case_bool_decide as Hnil.
  - rewrite Hnil. simpl. rewrite app_nil_r. by destruct (_ && _).
  - destruct (pdfLibReads w _); simpl; [|reflexivity].
    rewrite splicePreviews_pages.
    destruct (pdfLibSaves w _); reflexivity.
Qed.


Lemma spliced_unreadable att e :
  pdfLibLoad w (da_buffer att) = Throw e -> spliced w att = [].
Proof. unfold spliced, splicePreview. by intros ->. Qed.


(** The attachment loop keeps what was fetched, in the order of the mail. *)
Lemma downloadAttachments_fetched item :
  downloadAttachments w item
  = map (fun '(att, buffer) => downloaded item att buffer) (fetched w item).
Proof.
  unfold downloadAttachments, fetched.
  generalize (item_attachments item) as atts.
  assert (H : forall atts acc,
    fold_left
      (fun downloadedAttachments att =>
         catchWith
           (buffer ← downloadAttachment w (item_messageId item) (att_id att)
                       (item_accountIndex item);
            mret (downloadedAttachments ++ [downloaded item att buffer]))
           (fun _ => downloadedAttachments)) atts acc
    = acc ++ map (fun '(att, buffer) => downloaded item att buffer)
               (omap (fun att =>
                  match downloadAttachment w (item_messageId item) (att_id att)
                          (item_accountIndex item) with
                  | Ok buffer => Some (att, buffer)
                  | Throw _ => None
                  end) atts)).
  { induction atts as [|att atts IH]; intros acc; simpl.
    - by rewrite app_nil_r.
    - rewrite IH.
      destruct (downloadAttachment w _ _ _) as [buffer|e]; simpl; [|reflexivity].
      by rewrite <- app_assoc. }
  intros atts. by rewrite H.
Qed.


(** ** The loop over the items *)

Lemma processItem_spec st done item :
  countersAgree w (fileCounters st) done ->
  exists st',
    processItem w st item = Ok st'
    /\ countersAgree w (fileCounters st') (done ++ [item])
    /\ archive st' = archive st ++ itemEntries w done item.
Proof.
  intros Hinv. unfold processItem.
  rewrite generateCombinedPdf_returns. simpl.
  pose proof (Hinv (fileKeyOf w item)) as Hkey.
  unfold fileKeyOf in Hkey at 1.
  assert (Hstep : forall counters n,
    (forall key, counters !! key
       = if bool_decide (fileKeyOf w item = key) then Some n
         else fileCounters st !! key) ->
    length (List.filter (fun i => bool_decide (fileKeyOf w i = fileKeyOf w item)) done) = n ->
    countersAgree w counters (done ++ [item])).
  { intros counters n Hc Hn key. rewrite Hc, List.filter_app, length_app. simpl.
    case_bool_decide as Hk; simpl.
    - subst key. rewrite Hn. by rewrite Nat.add_1_r.
    - rewrite Nat.add_0_r. apply Hinv. }
  unfold itemEntries, combinedStem, earlierSameKey.
  destruct (fileCounters st !! _) as [n|] eqn:Hlook.
  - destruct (length _) as [|m] eqn:Hlen; [discriminate|]. injection Hkey as ->.
    eexists. split; [reflexivity|]. simpl. split.
    + apply (Hstep _ (S m)); [|reflexivity].
      intros key. rewrite lookup_insert. unfold fileKeyOf.
      case_decide as Hd; case_bool_decide as Hb; congruence.
    + unfold counterSuffix, fileKeyOf. by rewrite !append_assoc.
  - destruct (length _) as [|m] eqn:Hlen; [|discriminate].
    eexists. split; [reflexivity|]. simpl. split.
    + apply (Hstep _ 0); [|reflexivity].
      intros key. rewrite lookup_insert. unfold fileKeyOf.
      case_decide as Hd; case_bool_decide as Hb; congruence.
    + unfold counterSuffix, fileKeyOf. rewrite !append_assoc. reflexivity.
Qed.

Lemma foldM_processItem items :
  forall st done,
    countersAgree w (fileCounters st) done ->
    exists st',
      foldM (processItem w) st items = Ok st'
      /\ archive st' = archive st ++ bundleEntries w done items.
Proof.
  induction items as [|item items IH]; intros st done Hinv; simpl.
  - exists st. by rewrite app_nil_r.
  - destruct (processItem_spec st done item Hinv) as (st1 & -> & Hinv1 & Harch).
    simpl. destruct (IH st1 (done ++ [item]) Hinv1) as (st' & -> & Harch').
    exists st'. split; [reflexivity|].
    by rewrite Harch', Harch, <- app_assoc.
Qed.

(** The archive of a request with at least one item is finalized, and holds
    the entries of the items one after the other. *)
Lemma bundle_entries items :
  items <> [] -> bundle w items = ZipStream (bundleEntries w [] items).
Proof.
  intros Hne. unfold bundle. destruct items as [|item items]; [congruence|].
  destruct (foldM_processItem (item :: items) {| fileCounters := ∅; archive := [] |} [])
    as (st' & -> & Harch).
  - intros key. simpl. apply lookup_empty.
  - by rewrite Harch.
Qed.

Lemma bundleEntries_app earlier items later :
  bundleEntries w earlier (items ++ later)
  = bundleEntries w earlier items ++ bundleEntries w (earlier ++ items) later.
Proof.
  revert earlier. induction items as [|item items IH]; intros earlier; simpl.
  - by rewrite app_nil_r.
  - rewrite IH, <- !app_assoc. reflexivity.
Qed.

(** The entries of the item that comes after [earlier]. *)
Lemma bundle_entries_at earlier item later :
  bundle w (earlier ++ item :: later)
  = ZipStream (bundleEntries w [] earlier ++ itemEntries w earlier item
               ++ bundleEntries w (earlier ++ [item]) later).
Proof.
  rewrite bundle_entries by (destruct earlier; discriminate).
  rewrite bundleEntries_app. simpl. reflexivity.
Qed.

End Collaborators.

(** ** [sanitizeFolderName] applied twice *)

Import Shape SanitizeFacts.

Lemma str_nonempty l : l <> [] -> str l <> EmptyString.
Proof. intros Hl H. apply Hl. apply str_inj. exact H. Qed.

Lemma orElse_nonempty s d : s <> EmptyString -> orElse s d = s.
Proof. intros H. unfold orElse. by rewrite bool_decide_eq_false_2. Qed.

Lemma endsWith_underscore_snoc t d :
  endsWith "_" (str (t ++ [d])) = isUnderscore d.
Proof.
  unfold endsWith. rewrite chars_str, length_app.
  change (length (chars "_")) with 1. change (length [d]) with 1.
  rewrite Nat.add_sub, drop_app_length.
  rewrite (leb_correct 1 (length t + 1)) by lia.
  rewrite andb_true_l. unfold listEqb, isUnderscore, underscore.
  change (chars "_") with ["_"%char].
  destruct (Ascii.eqb d "_") eqn:E.
  - apply Ascii.eqb_eq in E. subst d. reflexivity.
  - apply bool_decide_eq_false_2. intros H. injection H as ->.
    by rewrite Ascii.eqb_refl in E.
Qed.

Lemma sanitizeFolderName_of_tidy y :
  tidy y -> y <> [] ->
  sanitizeFolderName (str y) = orElse (str (stripTrailing y)) "Unknown".
Proof.
  intros Ht _. unfold sanitizeFolderName.
  by rewrite chars_str, (sanitizeChars_tidy_arg y Ht).
Qed.

(** C8, as amended.  Sanitizing a sanitized name changes nothing exactly when
    the sanitized name does not end with an underscore; the cut at 80
    characters, which comes after the trimming, is what can leave one. *)
Theorem sanitizeFolderName_twice (x : string) :
  sanitizeFolderName (sanitizeFolderName x) = sanitizeFolderName x
  <-> endsWith "_" (sanitizeFolderName x) = false.
Proof.
  pose proof (sanitizeChars_tidy (chars x)) as Ht.
  assert (Hx : sanitizeFolderName x = orElse (str (sanitizeChars (chars x))) "Unknown")
    by reflexivity.
  rewrite Hx. clear Hx.
  destruct (sanitizeChars (chars x)) as [|c l] eqn:Ey.
  - split; intros _; vm_compute; reflexivity.
  - rewrite orElse_nonempty by (apply str_nonempty; discriminate).
    rewrite (sanitizeFolderName_of_tidy _ Ht) by discriminate.
    destruct (exists_last (l := c :: l)) as (t & d & Hy); [discriminate|].
    rewrite Hy in *. rewrite stripTrailing_snoc, endsWith_underscore_snoc.
    destruct (isUnderscore d) eqn:Ed.
    + split; [|discriminate]. intros H. exfalso.
      destruct t as [|e t].
      * destruct Ht as [_ _ Hh _]. simpl in Hh. congruence.
      * rewrite orElse_nonempty in H by (apply str_nonempty; discriminate).
        apply str_inj in H. apply (f_equal length) in H.
        rewrite length_app in H. simpl in H. lia.
    + split; [reflexivity|]. intros _.
      apply orElse_nonempty, str_nonempty. by destruct t.
Qed.

(** C8, the counterexample.  Of 79 letters, a space and a letter the
    sanitizer keeps 79 letters and an underscore; a second pass takes the
    underscore off. *)
Lemma sanitizeFolderName_not_idempotent :
  sanitizeFolderName (sanitizeFolderName Demo.cutAtUnderscore)
  <> sanitizeFolderName Demo.cutAtUnderscore.
Proof. vm_compute. discriminate. Qed.

(** After the trimming no underscore is left at the end. *)
Lemma noAdj_snoc_underscore t d :
  noAdj (t ++ [d]) -> isUnderscore d = true ->
  forall t' e, t = t' ++ [e] -> isUnderscore e = false.
Proof.
  intros Hn Hd t' e ->. revert Hn.
  induction t' as [|c t' IH]; simpl.
  - intros [Hh _]. destruct (isUnderscore e) eqn:E; [|reflexivity].
    specialize (Hh eq_refl). simpl in Hh. congruence.
  - intros [_ Hn]. apply IH. exact Hn.
Qed.

Lemma stripTrailing_last l :
  noAdj l ->
  forall t e, stripTrailing l = t ++ [e] -> isUnderscore e = false.
Proof.
  intros Hn t e. destruct l as [|c l'] using rev_ind; [by destruct t|].
  clear IHl'. rewrite stripTrailing_snoc.
  destruct (isUnderscore c) eqn:Ec.
  - intros ->. eapply noAdj_snoc_underscore; eauto.
  - intros H. apply app_inj_tail in H as [_ ->]. exact Ec.
Qed.

(** A name that the cut at 80 characters does not touch is sanitized once
    and for all. *)
Lemma sanitizeFolderName_idempotent_uncut (x : string) :
  length (stripTrailing (stripLeading
     (squeeze isUnderscore false (squeeze isSpace false (stripForbidden (chars x))))))
  <= 80 ->
  sanitizeFolderName (sanitizeFolderName x) = sanitizeFolderName x.
Proof.
  intros Hlen.
  pose proof (sanitizeChars_tidy (chars x)) as Ht.
  assert (Hx : sanitizeFolderName x = orElse (str (sanitizeChars (chars x))) "Unknown")
    by reflexivity.
  rewrite Hx. clear Hx. unfold sanitizeChars in *.
  rewrite take_ge in * by assumption.
  set (a := squeeze isUnderscore false (squeeze isSpace false (stripForbidden (chars x)))) in *.
  assert (Hb : noAdj (stripLeading a)).
  { apply stripLeading_shape. apply squeeze_underscore_shape. }
  destruct (stripTrailing (stripLeading a)) as [|c l] eqn:Ey.
  - vm_compute. reflexivity.
  - rewrite orElse_nonempty by (apply str_nonempty; discriminate).
    rewrite (sanitizeFolderName_of_tidy _ Ht) by discriminate.
    destruct (exists_last (l := c :: l)) as (t & d & Hy); [discriminate|].
    rewrite Hy in *. rewrite stripTrailing_snoc.
    rewrite (stripTrailing_last _ Hb t d Ey).
    apply orElse_nonempty, str_nonempty. by destruct t.
Qed.

(** ** The renaming of generic attachment names *)

(** The first 60 characters of a sanitized name are the sanitizer of the
    specification at the length 60. *)
Lemma substring0_sanitizeFolderName (x : string) :
  substring0 60 (sanitizeFolderName x) = Spec.sanitizeSegment 60 "Unknown" x.
Proof.
  unfold sanitizeFolderName, Spec.sanitizeSegment, sanitizeChars, substring0.
  set (l := stripTrailing _).
  destruct l as [|c l'] eqn:El.
  - vm_compute. reflexivity.
  - rewrite !orElse_nonempty.
    + rewrite chars_str, take_take. reflexivity.
    + apply str_nonempty. discriminate.
    + apply str_nonempty. discriminate.
Qed.

(** C9, as amended.  A generic name of a mail with a subject becomes the
    sanitized subject cut to 60 characters, followed by the extension; any
    other name, and any name of a mail without subject, stays. *)
Theorem cleanAttachmentName_spec (filename subject : string) :
  (isGenericFilename filename = true -> subject <> EmptyString ->
   cleanAttachmentName filename subject
   = substring0 60 (sanitizeFolderName subject) +:+ extensionOf filename
   /\ cleanAttachmentName filename subject
      = Spec.sanitizeSegment 60 "Unknown" subject +:+ extensionOf filename)
  /\ (isGenericFilename filename = false ->
      cleanAttachmentName filename subject = filename)
  /\ (subject = EmptyString -> cleanAttachmentName filename subject = filename).
Proof.
  unfold cleanAttachmentName. split; [|split].
  - intros Hgen Hsub. rewrite Hgen, bool_decide_eq_false_2 by assumption.
    split; [reflexivity|]. simpl. by rewrite substring0_sanitizeFolderName.
  - by intros ->.
  - intros ->. rewrite bool_decide_eq_true_2 by reflexivity.
    by rewrite andb_false_r.
Qed.

Lemma cleanAttachmentName_spec_witness :
  cleanAttachmentName "inline_1.pdf" "March Invoice" = "March_Invoice.pdf"
  /\ cleanAttachmentName "invoice-march.pdf" "March Invoice" = "invoice-march.pdf".
Proof.
  destruct (cleanAttachmentName_spec "inline_1.pdf" "March Invoice") as [H _].
  destruct (cleanAttachmentName_spec "invoice-march.pdf" "March Invoice") as (_ & H' & _).
  split.
  - destruct H as [-> _]; [reflexivity | discriminate | reflexivity].
  - apply H'. reflexivity.
Defined.

(** C9, the counterexample.  With a subject of 70 letters the name of
    [inline_1.pdf] has 60 of them, not the whole sanitized subject. *)
Lemma cleanAttachmentName_cuts_subject :
  isGenericFilename "inline_1.pdf" = true
  /\ Demo.longSubject <> EmptyString
  /\ cleanAttachmentName "inline_1.pdf" Demo.longSubject
     <> sanitizeFolderName Demo.longSubject +:+ ".pdf".
Proof. split; [reflexivity|]. split; [discriminate|]. vm_compute. discriminate. Qed.

(** ** [formatDatePrefix] *)

Lemma formatDatePrefix_valid (w : World) (dateStr : string) (f : DateFields) :
  newDate w dateStr = Some f ->
  formatDatePrefix w dateStr
  = ofZ (localYear f) +:+ "-" +:+ padStart2 (ofZ (localMonth f + 1)) +:+ "-"
    +:+ padStart2 (ofZ (localDay f)).
Proof. intros H. unfold formatDatePrefix. rewrite H. reflexivity. Qed.

Example formatDatePrefix_demo :
  formatDatePrefix Demo.world "2024-03-15" = "2024-03-15".
Proof. vm_compute. reflexivity. Qed.

(** C7, the behaviour of the code.  No date makes [formatDatePrefix] throw,
    but a text that [Date] cannot parse gives the getters' [NaN] three
    times, and never the literal of the [catch]. *)
Theorem formatDatePrefix_unparsable (w : World) (dateStr : string) :
  newDate w dateStr = None ->
  formatDatePrefix w dateStr = "NaN-NaN-NaN"
  /\ formatDatePrefix w dateStr <> "unknown-date".
Proof.
  intros H. unfold formatDatePrefix. rewrite H. split; [reflexivity|].
  vm_compute. discriminate.
Qed.

Lemma formatDatePrefix_unparsable_witness :
  newDate Demo.world "yesterday" = None
  /\ formatDatePrefix Demo.world "yesterday" = "NaN-NaN-NaN"
  /\ formatDatePrefix Demo.world "yesterday" <> "unknown-date".
Proof.
  split; [reflexivity|].
  apply (formatDatePrefix_unparsable Demo.world "yesterday"). reflexivity.
Defined.

(** ** The entity matcher *)

Example fromAddressOf_demo :
  map fromAddressOf
    ["Acme Billing <billing@acme.com>"; "billing@acme.com"; "<> <a@b.c>"; "a < b"]
  = ["billing@acme.com"; "billing@acme.com"; "a@b.c"; "a < b"].
Proof. vm_compute. reflexivity. Qed.

Example patternMatches_demo :
  map (fun a => patternMatches a "*@acme.com")
    ["user@acme.com"; "user@mail.acme.com"; "user@otheracme.com"; "user@ACME.com"]
  = [true; true; false; false].
Proof. vm_compute. reflexivity. Qed.

(** A mapping outside of the chosen entities is passed over. *)
Lemma matchMappings_skip entityMap entityIds fromAddress mapping rest :
  bool_decide (mapping_entityId mapping ∈ entityIds)
  && patternMatches fromAddress (mapping_pattern mapping) = false ->
  matchMappings entityMap entityIds fromAddress (mapping :: rest)
  = matchMappings entityMap entityIds fromAddress rest.
Proof. intros H. simpl. by rewrite H. Qed.

(** The first mapping that matches decides. *)
Lemma matchMappings_first entityMap entityIds fromAddress mapping rest :
  bool_decide (mapping_entityId mapping ∈ entityIds)
  && patternMatches fromAddress (mapping_pattern mapping) = true ->
  matchMappings entityMap entityIds fromAddress (mapping :: rest)
  = (Some (mapping_entityId mapping),
     entityNameOf entityMap (mapping_entityId mapping)).
Proof. intros H. simpl. by rewrite H. Qed.

(** No mapping matches: both results are null. *)
Lemma matchMappings_none entityMap entityIds fromAddress allMappings :
  Forall (fun mapping =>
            bool_decide (mapping_entityId mapping ∈ entityIds)
            && patternMatches fromAddress (mapping_pattern mapping) = false)
         allMappings ->
  matchMappings entityMap entityIds fromAddress allMappings = (None, None).
Proof.
  induction 1 as [|mapping rest H _ IH]; [reflexivity|].
  by rewrite matchMappings_skip.
Qed.

(** A literal pattern is compared after both sides are put in lower case. *)
Lemma patternMatches_literal (fromAddress p : string) :
  startsWith "*@" p = false ->
  patternMatches fromAddress p = bool_decide (toLowerCase fromAddress = toLowerCase p).
Proof. intros H. unfold patternMatches. by rewrite H. Qed.

(** A wildcard pattern is compared as it is written. *)
Lemma patternMatches_wildcard (fromAddress domain : string) :
  patternMatches fromAddress ("*@" +:+ domain)
  = endsWith ("@" +:+ domain) fromAddress || endsWith ("." +:+ domain) fromAddress.
Proof.
  unfold patternMatches.
  assert (Hs : startsWith "*@" ("*@" +:+ domain) = true).
  { unfold startsWith, listEqb. rewrite chars_app.
    rewrite take_app_length. by apply bool_decide_eq_true_2. }
  rewrite Hs.
  assert (Hd : substringFrom 2 ("*@" +:+ domain) = domain).
  { unfold substringFrom. rewrite chars_app.
    change 2 with (length (chars "*@")). rewrite drop_app_length. apply str_chars. }
  by rewrite Hd.
Qed.

(** C5, the behaviour of the code.  The wildcard branch compares the address
    as it is written: a sender in capitals is not matched by [*@acme.com],
    while the literal branch matches the same sender whatever the case. *)
Theorem matchEntity_wildcard_case :
  matchEntity Demo.entities
    [ {| mapping_entityId := "e1"; mapping_pattern := "*@acme.com" |} ]
    ["e1"] "Acme Billing <Billing@ACME.com>" = (None, None)
  /\ matchEntity Demo.entities
       [ {| mapping_entityId := "e1"; mapping_pattern := "billing@acme.com" |} ]
       ["e1"] "Acme Billing <Billing@ACME.com>" = (Some "e1", Some "Acme Corp")
  /\ matchEntity Demo.entities
       [ {| mapping_entityId := "e1"; mapping_pattern := "*@acme.com" |} ]
       ["e1"] "Acme Billing <billing@acme.com>" = (Some "e1", Some "Acme Corp").
Proof. repeat split; vm_compute; reflexivity. Qed.

(** ** The JSON record *)



(** The date of the record: the ISO text, or the empty text when the date
    cannot be parsed and [toISOString] throws. *)
Lemma generateJsonRecord_dateISO (w : World) (item : Item) atts :
  jsonField "dateISO" (generateJsonRecord w item atts)
  = Some (JString match newDate w (item_date item) with
                  | Some f => isoText f
                  | None => EmptyString
                  end).
Proof.
  unfold generateJsonRecord. simpl.
  by destruct (newDate w (item_date item)).
Qed.

(** ** The archive *)

Lemma append_cancel_r (a b c : string) : a +:+ c = b +:+ c -> a = b.
Proof.
  intros H. apply chars_inj. apply (f_equal chars) in H.
  rewrite !chars_app in H. by apply app_inv_tail in H.
Qed.

Lemma isPdfMime_not_image (mimeType : string) :
  isPdfMime mimeType = true -> isImageMime mimeType = false.
Proof.
  unfold isPdfMime, isImageMime. intros H. apply bool_decide_eq_true_1 in H.
  rewrite H. reflexivity.
Qed.

(** The key of [fileCounters] holds a slash, which the name of no property
    that an empty object inherits does: a key is in the table only after an
    item has put it there. *)
Lemma fileKeyOf_has_slash (w : World) (item : Item) :
  In "/"%char (chars (fileKeyOf w item)).
Proof.
  unfold fileKeyOf. rewrite !chars_app. apply in_or_app. right.
  apply in_or_app. left. left. reflexivity.
Qed.

Example formatBytes_demo :
  map formatBytes [0; 1023; 1024; 1075; 1536; 1048575; 1048576; 1572864]%N
  = ["0 B"; "1023 B"; "1.0 KB"; "1.0 KB"; "1.5 KB"; "1024.0 KB"; "1.0 MB"; "1.5 MB"].
Proof. vm_compute. reflexivity. Qed.


(** C1, as amended.  An item gives one combined PDF, one combined JSON and
    one raw file for each fetched attachment, in this order.  For a mail with
    a PDF and a spreadsheet, both fetched, that makes four entries; the
    combined PDF lists the PDF as previewed and the spreadsheet as a separate
    file, and its only copied page is the first page of the PDF. *)
Theorem bundle_pdf_and_spreadsheet (w : World) (item : Item) :
  (exists pages record,
     bundle w [item]
     = ZipStream
         ([ {| entry_name := fileKeyOf w item +:+ "_combined.pdf";
               entry_data := PdfFile pages |};
            {| entry_name := fileKeyOf w item +:+ "_combined.json";
               entry_data := JsonFile record |} ]
          ++ map (fun '(att, buffer) => rawEntry w item (downloaded item att buffer))
               (fetched w item)))
  /\ forall (p x : AttachmentRef) (bp bx : Buffer) (n : nat),
       item_attachments item = [p; x] ->
       downloadAttachment w (item_messageId item) (att_id p) (item_accountIndex item)
       = Ok bp ->
       downloadAttachment w (item_messageId item) (att_id x) (item_accountIndex item)
       = Ok bx ->
       isPdfMime (att_mimeType p) = true ->
       isImageMime (att_mimeType x) = false ->
       isPdfMime (att_mimeType x) = false ->
       pdfLibLoad w bp = Ok (S n) ->
       (forall caption, pdfLibDrawText w caption = true) ->
       (forall pages, pdfLibReads w pages = true) ->
       (forall pages, pdfLibSaves w pages = true) ->
       exists title fields body caption record,
         bundle w [item]
         = ZipStream
             [ {| entry_name := fileKeyOf w item +:+ "_combined.pdf";
                  entry_data :=
                    PdfFile
                      [ MetadataPage title fields
                          [ {| row_filename := da_filename (downloaded item p bp);
                               row_size := formatBytes (N.of_nat (length bp));
                               row_badge := "[PDF preview below]" |};
                            {| row_filename := da_filename (downloaded item x bx);
                               row_size := formatBytes (N.of_nat (length bx));
                               row_badge := "[separate file]" |} ];
                        BodyPage body;
                        CopiedPage bp true (Some caption) ] |};
               {| entry_name := fileKeyOf w item +:+ "_combined.json";
                  entry_data := JsonFile record |};
               rawEntry w item (downloaded item p bp);
               rawEntry w item (downloaded item x bx) ].
Proof.
  assert (Hb : bundle w [item] = ZipStream (itemEntries w [] item)).
  { rewrite bundle_entries by discriminate. simpl. by rewrite app_nil_r. }
  rewrite Hb. unfold itemEntries, combinedStem, earlierSameKey.
  simpl. rewrite append_empty_r. split.
  - do 2 eexists. rewrite downloadAttachments_fetched, map_map.
    do 3 f_equal. apply map_ext. by intros [att buffer].
  - intros p x bp bx n Hatts Hp Hx Hpdf Himg Hnot Hload Hdraw Hreads Hsaves.
    rewrite downloadAttachments_fetched. unfold fetched.
    rewrite Hatts. simpl. rewrite Hp, Hx. simpl.
    unfold combinedPages, generateBasePdf, listingRow, badgeOf, spliced, splicePreview.
    simpl. rewrite Hpdf, Himg, Hnot, (isPdfMime_not_image _ Hpdf). simpl.
    rewrite Hload, Hdraw, Hreads, Hsaves. simpl.
    do 5 eexists. reflexivity.
Qed.

Lemma bundle_pdf_and_spreadsheet_witness :
  exists entries,
    bundle Demo.world [Demo.invoiceMail] = ZipStream entries /\ length entries = 4.
Proof.
  destruct (bundle_pdf_and_spreadsheet Demo.world Demo.invoiceMail) as [_ Hscenario].
  destruct (Hscenario Demo.invoicePdf Demo.figuresXlsx
              (Demo.bytesOf "%PDF-1.7 invoice") (Demo.bytesOf "PK figures") 6)
    as (title & fields & body & caption & record & H);
    try reflexivity.
  eexists. split; [exact H | reflexivity].
Defined.

(** C1, the counterexample.  The mail with a PDF and a spreadsheet gives four
    entries: one combined pair for the mail and two raw files. *)
Lemma bundle_four_entries :
  exists entries,
    bundle Demo.world [Demo.invoiceMail] = ZipStream entries
    /\ map entry_name entries
       = [ "Acme_Corp/2024-03-15_March_Invoice_combined.pdf";
           "Acme_Corp/2024-03-15_March_Invoice_combined.json";
           "Acme_Corp/2024-03-15_invoice.pdf";
           "Acme_Corp/2024-03-15_figures.xlsx" ]
    /\ length entries <> 6.
Proof.
  eexists. split; [vm_compute; reflexivity|]. split; [reflexivity|].
  simpl. discriminate.
Qed.

(** The number of entries of an item. *)
Lemma itemEntries_length (w : World) (earlier : list Item) (item : Item) :
  length (itemEntries w earlier item) = 2 + length (fetched w item).
Proof.
  unfold itemEntries. rewrite downloadAttachments_fetched.
  simpl. by rewrite !length_map.
Qed.

(** C2, as amended.  The combined PDF and the combined JSON of an item are
    named after one stem, the key of the item with its collision suffix;
    the raw files that follow them are named after the date and their own
    attachment, without that stem and without a suffix. *)
Theorem combined_pair_shares_stem (w : World) (earlier : list Item) (item : Item)
    (later : list Item) :
  exists before after pages record,
    bundle w (earlier ++ item :: later)
    = ZipStream
        (before
         ++ [ {| entry_name := combinedStem w earlier item +:+ "_combined.pdf";
                 entry_data := PdfFile pages |};
              {| entry_name := combinedStem w earlier item +:+ "_combined.json";
                 entry_data := JsonFile record |} ]
         ++ map (rawEntry w item) (downloadAttachments w item)
         ++ after)
    /\ length before = length (bundleEntries w [] earlier)
    /\ forall att,
         entry_name (rawEntry w item att)
         = entityFolderOf item +:+ "/" +:+ formatDatePrefix w (item_date item)
           +:+ "_" +:+ substring0 60 (sanitizeFolderName (stripExt (da_filename att)))
           +:+ extensionOf (da_filename att).
Proof.
  do 4 eexists. split; [|split; [reflexivity|]].
  - rewrite bundle_entries_at. unfold itemEntries.
    rewrite <- !app_assoc. reflexivity.
  - intros att. reflexivity.
Qed.

(** C2, the counterexample.  The raw file of the invoice and the combined
    pair of its mail have different stems. *)
Lemma raw_file_has_other_stem :
  exists pdf json raw1 raw2,
    bundle Demo.world [Demo.invoiceMail] = ZipStream [pdf; json; raw1; raw2]
    /\ entry_data raw1 = RawFile (Demo.bytesOf "%PDF-1.7 invoice")
    /\ ~ Spec.sharesStem (entry_name raw1) (entry_name pdf) (entry_name json).
Proof.
  do 4 eexists. split; [vm_compute; reflexivity|]. split; [reflexivity|].
  intros (stem & ext & Hraw & Hpdf & _). simpl in Hraw, Hpdf.
  change "Acme_Corp/2024-03-15_March_Invoice_combined.pdf"
    with ("Acme_Corp/2024-03-15_March_Invoice" +:+ "_combined.pdf") in Hpdf.
  apply append_cancel_r in Hpdf. subst stem.
  vm_compute in Hraw. discriminate Hraw.
Qed.

(** C4, as amended.  An item that comes after [n + 1] items of the same key
    has its combined PDF and its combined JSON named with the suffix
    [_(n + 1)] between the key and the ending: the second item of a key
    carries [_1], the third [_2]. *)
Theorem collision_suffix_counts_earlier (w : World) (earlier : list Item)
    (item : Item) (later : list Item) (n : nat) :
  earlierSameKey w earlier item = S n ->
  exists before after pages record,
    bundle w (earlier ++ item :: later)
    = ZipStream
        (before
         ++ [ {| entry_name :=
                   fileKeyOf w item +:+ "_" +:+ ofNat (S n) +:+ "_combined.pdf";
                 entry_data := PdfFile pages |};
              {| entry_name :=
                   fileKeyOf w item +:+ "_" +:+ ofNat (S n) +:+ "_combined.json";
                 entry_data := JsonFile record |} ]
         ++ map (rawEntry w item) (downloadAttachments w item)
         ++ after)
    /\ length before = length (bundleEntries w [] earlier).
Proof.
  intros Hn. do 4 eexists. split; [|reflexivity].
  rewrite bundle_entries_at. unfold itemEntries, combinedStem.
  rewrite Hn. unfold counterSuffix.
  rewrite <- !app_assoc, !append_assoc. reflexivity.
Qed.

Lemma collision_suffix_counts_earlier_witness :
  earlierSameKey Demo.world [Demo.singleMail] Demo.singleMail = 1
  /\ exists before after pages record,
       bundle Demo.world ([Demo.singleMail] ++ Demo.singleMail :: [Demo.singleMail])
       = ZipStream
           (before
            ++ [ {| entry_name := "Acme_Corp/2024-03-15_March_Invoice_1_combined.pdf";
                    entry_data := PdfFile pages |};
                 {| entry_name := "Acme_Corp/2024-03-15_March_Invoice_1_combined.json";
                    entry_data := JsonFile record |} ]
            ++ map (rawEntry Demo.world Demo.singleMail)
                 (downloadAttachments Demo.world Demo.singleMail)
            ++ after)
       /\ length before = 3.
Proof.
  split; [reflexivity|].
  exact (collision_suffix_counts_earlier Demo.world [Demo.singleMail] Demo.singleMail
           [Demo.singleMail] 0 eq_refl).
Defined.

(** C4, the counterexample.  Of three mails with the same key the second one
    carries [_1] and the third one [_2], on the combined pair only: the raw
    file has the same name three times. *)
Lemma second_unit_carries_1 :
  exists entries,
    bundle Demo.world [Demo.singleMail; Demo.singleMail; Demo.singleMail]
    = ZipStream entries
    /\ map entry_name entries
       = [ "Acme_Corp/2024-03-15_March_Invoice_combined.pdf";
           "Acme_Corp/2024-03-15_March_Invoice_combined.json";
           "Acme_Corp/2024-03-15_invoice.pdf";
           "Acme_Corp/2024-03-15_March_Invoice_1_combined.pdf";
           "Acme_Corp/2024-03-15_March_Invoice_1_combined.json";
           "Acme_Corp/2024-03-15_invoice.pdf";
           "Acme_Corp/2024-03-15_March_Invoice_2_combined.pdf";
           "Acme_Corp/2024-03-15_March_Invoice_2_combined.json";
           "Acme_Corp/2024-03-15_invoice.pdf" ]
    /\ ~ In "Acme_Corp/2024-03-15_March_Invoice_3_combined.pdf" (map entry_name entries).
Proof.
  eexists. split; [vm_compute; reflexivity|]. split; [reflexivity|].
  simpl. intros H. repeat (destruct H as [H|H]; [discriminate H|]). exact H.
Qed.






(** In the archive of the troubled mail the combined PDF is the base
    document: the scan was fetched but could not be read, and has no page. *)
Example troubledMail_combined_pdf :
  generateCombinedPdf Demo.world Demo.troubledMail
    (downloadAttachments Demo.world Demo.troubledMail)
  = Ok (generateBasePdf Demo.world Demo.troubledMail
          (downloadAttachments Demo.world Demo.troubledMail))
  /\ map da_filename (downloadAttachments Demo.world Demo.troubledMail)
     = ["scan.pdf"; "figures.xlsx"].
Proof. split; vm_compute; reflexivity. Qed.

(** * Further properties of the code *)

(** ** What a sanitized name looks like *)

(** X1.  Whatever the input, [sanitizeFolderName] gives a name that is not
    empty, has at most 80 characters, none of them one of the nine removed
    characters or a white space, does not start with an underscore and has
    no two underscores in a row. *)
Theorem sanitizeFolderName_safe (x : string) :
  sanitizeFolderName x <> EmptyString
  /\ length (chars (sanitizeFolderName x)) <= 80
  /\ (forall c, In c (chars (sanitizeFolderName x)) ->
        isForbidden c = false /\ isSpace c = false)
  /\ startsWith "_" (sanitizeFolderName x) = false
  /\ (forall pre post, sanitizeFolderName x <> pre +:+ "__" +:+ post).
Proof.
  assert (Htidy : tidy (chars (sanitizeFolderName x)) /\ sanitizeFolderName x <> EmptyString).
  { pose proof (sanitizeChars_tidy (chars x)) as Ht.
    unfold sanitizeFolderName.
    destruct (sanitizeChars (chars x)) as [|c l] eqn:Ey.
    - split; [|vm_compute; discriminate].
      change (orElse (str []) "Unknown") with "Unknown".
      split; [repeat constructor | simpl; tauto | reflexivity | simpl; lia].
    - rewrite orElse_nonempty by (apply str_nonempty; discriminate).
      rewrite chars_str. split; [exact Ht | apply str_nonempty; discriminate]. }
  destruct Htidy as [[Hplain Hadj Hhead Hlen] Hne].
  split; [exact Hne|]. split; [exact Hlen|]. split; [|split].
  - intros c Hc. rewrite Forall_forall in Hplain. apply Hplain.
    by apply list_elem_of_In.
  - unfold startsWith, listEqb.
    destruct (chars (sanitizeFolderName x)) as [|c l]; [reflexivity|].
    simpl in Hhead. apply bool_decide_eq_false_2. simpl. intros H.
    injection H as ->. discriminate Hhead.
  - intros pre post H. apply (f_equal chars) in H.
    rewrite !chars_app in H. rewrite H in Hadj. clear -Hadj.
    induction (chars pre) as [|c l IH]; simpl in Hadj.
    + destruct Hadj as [Hh _]. specialize (Hh eq_refl). discriminate Hh.
    + apply IH. tauto.
Qed.

(** ** Generic names and extensions *)

Lemma lowerChar_idempotent (c : ascii) : lowerChar (lowerChar c) = lowerChar c.
Proof. destruct c as [[] [] [] [] [] [] [] []]; vm_compute; reflexivity. Qed.

Lemma toLowerCase_idempotent (s : string) : toLowerCase (toLowerCase s) = toLowerCase s.
Proof.
  unfold toLowerCase. rewrite chars_str, map_map. f_equal.
  apply map_ext. intros c. apply lowerChar_idempotent.
Qed.

(** X2.  [isGenericFilename] does not look at the case of the letters: a
    name and its lower-case form are generic together. *)
Theorem isGenericFilename_ignores_case (filename : string) :
  isGenericFilename (toLowerCase filename) = isGenericFilename filename.
Proof. unfold isGenericFilename. by rewrite toLowerCase_idempotent. Qed.

Lemma afterLastDot_dotless acc l :
  existsb isDot l = false -> afterLastDot acc l = acc.
Proof.
  revert acc. induction l as [|c l IH]; intros acc; simpl; [reflexivity|].
  destruct (isDot c); [discriminate|]. simpl. apply IH.
Qed.

Lemma afterLastDot_snoc acc a t :
  existsb isDot t = false -> afterLastDot acc (a ++ dot :: t) = t.
Proof.
  intros Ht. revert acc. induction a as [|c a IH]; intros acc; simpl.
  - by apply afterLastDot_dotless.
  - destruct (isDot c); apply IH.
Qed.

Lemma afterLastDot_has_no_dot acc l :
  existsb isDot l = true -> existsb isDot (afterLastDot acc l) = false.
Proof.
  revert acc. induction l as [|c l IH]; intros acc; simpl; [discriminate|].
  destruct (isDot c); simpl.
  - intros _. destruct (existsb isDot l) eqn:E; [by apply IH|].
    by rewrite afterLastDot_dotless.
  - apply IH.
Qed.

Lemma existsb_app_dot a t : existsb isDot (a ++ dot :: t) = true.
Proof. rewrite existsb_app. simpl. apply orb_true_r. Qed.

(** The extension of a name that ends with a dot and a text without dot. *)
Lemma extensionOf_append (s t : string) :
  existsb isDot (chars t) = false ->
  extensionOf (s +:+ "." +:+ t) = "." +:+ t.
Proof.
  intros Ht. unfold extensionOf, includesDot, splitDotPop.
  rewrite !chars_app. change (chars ".") with [dot]. simpl.
  rewrite existsb_app_dot, (afterLastDot_snoc _ _ _ Ht). by rewrite str_chars.
Qed.

(** X3.  The renaming of a generic name keeps its extension: when the name
    holds a dot, the new name ends with the same extension, whatever dots
    the subject holds. *)
Theorem cleanAttachmentName_keeps_extension (filename subject : string) :
  isGenericFilename filename = true ->
  subject <> EmptyString ->
  includesDot filename = true ->
  extensionOf (cleanAttachmentName filename subject) = extensionOf filename.
Proof.
  intros Hgen Hsub Hdot. unfold cleanAttachmentName.
  rewrite Hgen, bool_decide_eq_false_2 by assumption. simpl.
  unfold extensionOf at 2 3. rewrite Hdot.
  apply extensionOf_append. unfold splitDotPop. rewrite chars_str.
  by apply afterLastDot_has_no_dot.
Qed.

Lemma cleanAttachmentName_keeps_extension_witness :
  extensionOf (cleanAttachmentName "inline_1.pdf" "Offer v1.2 for Acme")
  = extensionOf "inline_1.pdf".
Proof.
  apply cleanAttachmentName_keeps_extension;
    [reflexivity | discriminate | reflexivity].
Defined.

(** ** The size of the archive *)

Lemma bundleEntries_length (w : World) (items : list Item) :
  forall earlier,
    length (bundleEntries w earlier items)
    = 2 * length items + list_sum (map (fun item => length (fetched w item)) items).
Proof.
  induction items as [|item items IH]; intros earlier; [reflexivity|].
  cbn [bundleEntries]. rewrite length_app, IH, itemEntries_length.
  cbn [map length]. change (list_sum (?a :: ?l)) with (a + list_sum l). lia.
Qed.

(** X4.  The archive of a request holds two entries for each item and one
    more for each attachment whose fetch returned. *)
Theorem bundle_entry_count (w : World) (items : list Item) :
  items <> [] ->
  exists entries,
    bundle w items = ZipStream entries
    /\ length entries
       = 2 * length items
         + list_sum (map (fun item => length (fetched w item)) items).
Proof.
  intros Hne. exists (bundleEntries w [] items).
  split; [by apply bundle_entries | apply bundleEntries_length].
Qed.

Lemma bundle_entry_count_witness :
  exists entries,
    bundle Demo.world [Demo.invoiceMail; Demo.troubledMail; Demo.plainMail]
    = ZipStream entries
    /\ length entries = 10.
Proof.
  destruct (bundle_entry_count Demo.world
              [Demo.invoiceMail; Demo.troubledMail; Demo.plainMail])
    as (entries & H & Hlen); [discriminate|].
  exists entries. split; [exact H | exact Hlen].
Defined.

(** ** The entity matcher *)

Lemma endsWith_spec (p s : string) :
  endsWith p s = true <-> exists pre, s = pre +:+ p.
Proof.
  unfold endsWith, listEqb. rewrite andb_true_iff, Nat.leb_le, bool_decide_eq_true.
  split.
  - intros [Hlen Hdrop].
    exists (str (take (length (chars s) - length (chars p)) (chars s))).
    apply chars_inj. rewrite chars_app, chars_str.
    set (n := length (chars s) - length (chars p)) in *.
    rewrite <- (take_drop n (chars s)) at 1. by rewrite Hdrop.
  - intros [pre ->]. rewrite chars_app, length_app. split; [lia|].
    replace (length (chars pre) + length (chars p) - length (chars p))
      with (length (chars pre)) by lia.
    apply drop_app_length.
Qed.

(** X5.  A wildcard pattern [*@domain] matches exactly the addresses that
    end, as they are written, with [@domain] or with [.domain]: the domain
    itself and its subdomains. *)
Theorem patternMatches_wildcard_iff (fromAddress domain : string) :
  patternMatches fromAddress ("*@" +:+ domain) = true
  <-> exists pre,
        fromAddress = pre +:+ "@" +:+ domain
        \/ fromAddress = pre +:+ "." +:+ domain.
Proof.
  rewrite patternMatches_wildcard, orb_true_iff, !endsWith_spec. split.
  - intros [[pre H]|[pre H]]; exists pre; auto.
  - intros [pre [H|H]]; [left | right]; by exists pre.
Qed.

Lemma selects_test entityIds fromAddress mapping :
  bool_decide (mapping_entityId mapping ∈ entityIds)
  && patternMatches fromAddress (mapping_pattern mapping) = true
  <-> selects entityIds fromAddress mapping.
Proof.
  unfold selects. rewrite andb_true_iff, bool_decide_eq_true, list_elem_of_In.
  reflexivity.
Qed.

(** X6.  The matcher answers with the first mapping, in the order of the
    list, whose entity was chosen and whose pattern matches; without such a
    mapping both answers are null.  It never answers with an entity that was
    not chosen. *)
Theorem matchMappings_first_selected (entityMap : gmap string string)
    (entityIds : list string) (fromAddress : string) (allMappings : list EmailMapping) :
  (matchMappings entityMap entityIds fromAddress allMappings = (None, None)
   /\ Forall (fun m => ~ selects entityIds fromAddress m) allMappings)
  \/ (exists before mapping after,
        allMappings = before ++ mapping :: after
        /\ Forall (fun m => ~ selects entityIds fromAddress m) before
        /\ selects entityIds fromAddress mapping
        /\ matchMappings entityMap entityIds fromAddress allMappings
           = (Some (mapping_entityId mapping),
              entityNameOf entityMap (mapping_entityId mapping))).
Proof.
  induction allMappings as [|m ms IH].
  - left. split; [reflexivity | constructor].
  - cbn [matchMappings].
    destruct (bool_decide _ && patternMatches _ _) eqn:E.
    + right. exists [], m, ms. split; [reflexivity|]. split; [constructor|].
      split; [by apply selects_test | reflexivity].
    + assert (Hm : ~ selects entityIds fromAddress m).
      { intros H. apply selects_test in H. congruence. }
      destruct IH as [[-> Hall]|(before & mapping & after & -> & Hb & Hs & ->)].
      * left. split; [reflexivity | by constructor].
      * right. exists (m :: before), mapping, after.
        split; [reflexivity|]. split; [by constructor|]. by split.
Qed.

Lemma angleAddress_none (l : list ascii) :
  Forall (fun c => c <> "<"%char) l -> angleAddress l = None.
Proof.
  induction 1 as [|c l Hc _ IH]; [reflexivity|]. simpl.
  destruct (Ascii.eqb c "<") eqn:E; [|exact IH].
  apply Ascii.eqb_eq in E. contradiction.
Qed.

Lemma upToGt_stop (addr rest : list ascii) :
  Forall (fun c => c <> ">"%char) addr ->
  upToGt (addr ++ ">"%char :: rest) = addr.
Proof.
  induction 1 as [|c l Hc _ IH]; [reflexivity|]. simpl.
  destruct (Ascii.eqb c ">") eqn:E.
  - apply Ascii.eqb_eq in E. contradiction.
  - by rewrite IH.
Qed.

Lemma angleAddress_bracket (name addr rest : list ascii) :
  Forall (fun c => c <> "<"%char) name ->
  addr <> [] ->
  Forall (fun c => c <> ">"%char) addr ->
  angleAddress (name ++ "<"%char :: addr ++ ">"%char :: rest) = Some addr.
Proof.
  intros Hname Hne Haddr. induction Hname as [|c l Hc _ IH]; simpl.
  - rewrite (upToGt_stop addr rest Haddr).
    destruct addr as [|a addr]; [congruence|].
    change (S (length addr)) with (length (a :: addr)).
    by rewrite (drop_app_length (a :: addr) (">"%char :: rest)).
  - destruct (Ascii.eqb c "<") eqn:E; [|exact IH].
    apply Ascii.eqb_eq in E. contradiction.
Qed.

(** X7.  Of a sender of the form [Name <address>] the matcher takes the
    address between the brackets; a sender without [<] is taken whole. *)
Theorem fromAddressOf_bracket (name addr rest from : string) :
  (Forall (fun c => c <> "<"%char) (chars name) ->
   addr <> EmptyString ->
   Forall (fun c => c <> ">"%char) (chars addr) ->
   fromAddressOf (name +:+ "<" +:+ addr +:+ ">" +:+ rest) = addr)
  /\ (Forall (fun c => c <> "<"%char) (chars from) -> fromAddressOf from = from).
Proof.
  split.
  - intros Hname Hne Haddr. unfold fromAddressOf. rewrite !chars_app.
    change (chars "<") with ["<"%char]. change (chars ">") with [">"%char].
    simpl. rewrite angleAddress_bracket; try assumption.
    + apply str_chars.
    + intros H. apply Hne. apply chars_inj. exact H.
  - intros H. unfold fromAddressOf. by rewrite angleAddress_none.
Qed.

Lemma fromAddressOf_bracket_witness :
  fromAddressOf ("Acme Billing " +:+ "<" +:+ "billing@acme.com" +:+ ">" +:+ EmptyString)
  = "billing@acme.com"
  /\ fromAddressOf "billing@acme.com" = "billing@acme.com".
Proof.
  destruct (fromAddressOf_bracket "Acme Billing " "billing@acme.com" EmptyString
              "billing@acme.com") as [H1 H2].
  split.
  - apply H1; [repeat constructor; discriminate | discriminate
              | repeat constructor; discriminate].
  - apply H2. repeat constructor; discriminate.
Defined.

(** ** The date prefix of a date that was parsed *)

Lemma Z_range_check (P : Z -> bool) (lo : Z) (n : nat) :
  forallb P (map (fun k => (lo + Z.of_nat k)%Z) (seq 0 n)) = true ->
  forall z, (lo <= z < lo + Z.of_nat n)%Z -> P z = true.
Proof.
  intros H z Hz. rewrite forallb_forall in H. apply H.
  apply in_map_iff. exists (Z.to_nat (z - lo)). split; [lia|].
  apply in_seq. lia.
Qed.

Lemma year_four_digits (z : Z) :
  (1000 <= z <= 9999)%Z ->
  digitsOfWidth 4 (ofZ z) = true /\ readDecimal (ofZ z) = z.
Proof.
  intros Hz.
  pose proof (Z_range_check
                (fun z => digitsOfWidth 4 (ofZ z) && (readDecimal (ofZ z) =? z)%Z)
                1000 (Z.to_nat 9000)) as H.
  cbv beta in H. specialize (H ltac:(vm_compute; reflexivity) z ltac:(lia)).
  apply andb_true_iff in H as [H1 H2]. by apply Z.eqb_eq in H2.
Qed.

Lemma month_two_digits (z : Z) :
  (0 <= z <= 11)%Z ->
  digitsOfWidth 2 (padStart2 (ofZ (z + 1))) = true
  /\ readDecimal (padStart2 (ofZ (z + 1))) = (z + 1)%Z.
Proof.
  intros Hz.
  pose proof (Z_range_check
                (fun z => digitsOfWidth 2 (padStart2 (ofZ (z + 1)))
                          && (readDecimal (padStart2 (ofZ (z + 1))) =? z + 1)%Z)
                0 12) as H.
  cbv beta in H. specialize (H ltac:(vm_compute; reflexivity) z ltac:(lia)).
  apply andb_true_iff in H as [H1 H2]. by apply Z.eqb_eq in H2.
Qed.

Lemma day_two_digits (z : Z) :
  (1 <= z <= 31)%Z ->
  digitsOfWidth 2 (padStart2 (ofZ z)) = true /\ readDecimal (padStart2 (ofZ z)) = z.
Proof.
  intros Hz.
  pose proof (Z_range_check
                (fun z => digitsOfWidth 2 (padStart2 (ofZ z))
                          && (readDecimal (padStart2 (ofZ z)) =? z)%Z)
                1 31) as H.
  cbv beta in H. specialize (H ltac:(vm_compute; reflexivity) z ltac:(lia)).
  apply andb_true_iff in H as [H1 H2]. by apply Z.eqb_eq in H2.
Qed.

(** X8.  For a date that [Date] parses to a year of four digits, the prefix
    is the ten characters [YYYY-MM-DD]: the year that [getFullYear] gives
    in four digits, a hyphen, the number of the month, which is
    [getMonth() + 1], in two digits, a hyphen, and the day that [getDate]
    gives in two digits. *)
Theorem formatDatePrefix_shape (w : World) (dateStr : string) (f : DateFields) :
  newDate w dateStr = Some f ->
  (1000 <= localYear f <= 9999)%Z ->
  (0 <= localMonth f <= 11)%Z ->
  (1 <= localDay f <= 31)%Z ->
  exists yyyy mm dd,
    formatDatePrefix w dateStr = yyyy +:+ "-" +:+ mm +:+ "-" +:+ dd
    /\ (digitsOfWidth 4 yyyy = true /\ readDecimal yyyy = localYear f)
    /\ (digitsOfWidth 2 mm = true /\ readDecimal mm = (localMonth f + 1)%Z)
    /\ (digitsOfWidth 2 dd = true /\ readDecimal dd = localDay f)
    /\ length (chars (formatDatePrefix w dateStr)) = 10.
Proof.
  intros Hd Hy Hm Hday. rewrite (formatDatePrefix_valid w dateStr f Hd).
  pose proof (year_four_digits _ Hy) as H1.
  pose proof (month_two_digits _ Hm) as H2.
  pose proof (day_two_digits _ Hday) as H3.
  do 3 eexists. split; [reflexivity|]. split; [exact H1|].
  split; [exact H2|]. split; [exact H3|].
  destruct H1 as [H1 _], H2 as [H2 _], H3 as [H3 _].
  unfold digitsOfWidth in *.
  apply andb_true_iff in H1 as [H1 _], H2 as [H2 _], H3 as [H3 _].
  apply Nat.eqb_eq in H1, H2, H3.
  rewrite !chars_app, !length_app, H1, H2, H3. reflexivity.
Qed.

Lemma formatDatePrefix_shape_witness :
  exists yyyy mm dd,
    formatDatePrefix Demo.world "2024-03-15" = yyyy +:+ "-" +:+ mm +:+ "-" +:+ dd
    /\ (digitsOfWidth 4 yyyy = true /\ readDecimal yyyy = 2024%Z)
    /\ (digitsOfWidth 2 mm = true /\ readDecimal mm = 3%Z)
    /\ (digitsOfWidth 2 dd = true /\ readDecimal dd = 15%Z)
    /\ length (chars (formatDatePrefix Demo.world "2024-03-15")) = 10.
Proof.
  apply (formatDatePrefix_shape Demo.world "2024-03-15"
           {| localYear := 2024; localMonth := 2; localDay := 15;
              isoText := "2024-03-15T00:00:00.000Z" |});
    [reflexivity | simpl; lia | simpl; lia | simpl; lia].
Defined.

(** ** The header of a downloaded attachment *)

(** X9.  The [Content-Disposition] header of a downloaded attachment holds
    no carriage return and no line feed, whatever file name the request
    asks for; without a file name it names the file [attachment]. *)
Theorem contentDisposition_one_line (queryFilename : option string) :
  Forall (fun c => isLineBreak c = false) (chars (contentDisposition queryFilename))
  /\ downloadFilename None = "attachment"
  /\ downloadFilename (Some EmptyString) = "attachment".
Proof.
  split.
  - unfold contentDisposition, downloadFilename.
    rewrite !chars_app, chars_str, !Forall_app. repeat split.
    + repeat constructor.
    + repeat constructor.
    + apply Forall_forall. intros c Hc. apply list_elem_of_In in Hc.
      apply List.filter_In in Hc as [_ Hc]. by apply negb_true_iff.
    + repeat constructor.
  - split; vm_compute; reflexivity.
Qed.

(** ** The Gmail query *)

Import Gmail.

Lemma trimStart_idempotent l : trimStart (trimStart l) = trimStart l.
Proof.
  induction l as [|c l IH]; [reflexivity|]. simpl.
  destruct (isSpace c) eqn:E; [exact IH|]. simpl. by rewrite E.
Qed.

Lemma trimStart_length l : length (trimStart l) <= length l.
Proof.
  induction l as [|c l IH]; simpl; [lia|].
  destruct (isSpace c); simpl; lia.
Qed.

Lemma trimStart_suffix l : exists pre, l = pre ++ trimStart l.
Proof.
  induction l as [|c l [pre IH]]; [by exists []|]. simpl.
  destruct (isSpace c).
  - exists (c :: pre). simpl. by rewrite <- IH.
  - by exists [].
Qed.

(** A text that [trimStart] leaves alone has prefixes that it leaves alone. *)
Lemma trimStart_fixed_prefix p q :
  trimStart (p ++ q) = p ++ q -> trimStart p = p.
Proof.
  destruct p as [|c p]; [reflexivity|]. simpl.
  destruct (isSpace c); [|reflexivity].
  intros H. pose proof (trimStart_length (p ++ q)) as Hlen.
  rewrite H in Hlen. simpl in Hlen. lia.
Qed.

Lemma trimChars_idempotent l : trimChars (trimChars l) = trimChars l.
Proof.
  unfold trimChars. set (a := trimStart l). set (b := trimStart (rev a)).
  assert (Ha : trimStart a = a) by apply trimStart_idempotent.
  assert (Hb : trimStart b = b) by apply trimStart_idempotent.
  assert (Hr : trimStart (rev b) = rev b).
  { destruct (trimStart_suffix (rev a)) as [pre Hpre]. fold b in Hpre.
    apply (f_equal (@rev ascii)) in Hpre.
    rewrite rev_involutive, rev_app_distr in Hpre.
    rewrite Hpre in Ha. by apply trimStart_fixed_prefix in Ha. }
  by rewrite Hr, rev_involutive, Hb.
Qed.

Lemma trim_idempotent s : trim (trim s) = trim s.
Proof. unfold trim. by rewrite chars_str, trimChars_idempotent. Qed.

(** X10.  The search terms count without the white space around them: the
    query of a text and the query of the trimmed text are the same, and a
    text of white space alone adds nothing to the query. *)
Theorem buildGmailQuery_trims_terms (daysAgo : Z -> DateFields)
    (entityPatterns : list string) (searchTerms : string) (daysBack : Z) :
  buildGmailQuery daysAgo entityPatterns (trim searchTerms) daysBack
  = buildGmailQuery daysAgo entityPatterns searchTerms daysBack
  /\ (trim searchTerms = EmptyString ->
      buildGmailQuery daysAgo entityPatterns searchTerms daysBack
      = buildGmailQuery daysAgo entityPatterns EmptyString daysBack).
Proof.
  unfold buildGmailQuery. split.
  - by rewrite trim_idempotent.
  - intros ->. reflexivity.
Qed.

Lemma buildGmailQuery_trims_terms_witness :
  buildGmailQuery (fun _ => {| localYear := 2024; localMonth := 2; localDay := 15;
                               isoText := EmptyString |})
    ["*@acme.com"] "   " 7
  = buildGmailQuery (fun _ => {| localYear := 2024; localMonth := 2; localDay := 15;
                                 isoText := EmptyString |})
      ["*@acme.com"] EmptyString 7.
Proof.
  apply (proj2 (buildGmailQuery_trims_terms _ ["*@acme.com"] "   " 7)).
  vm_compute. reflexivity.
Defined.

Lemma join_snoc sep parts last :
  exists pre, join sep (parts ++ [last]) = pre +:+ last.
Proof.
  induction parts as [|p parts IH].
  - exists EmptyString. reflexivity.
  - destruct IH as [pre IH]. cbn [app join].
    destruct (parts ++ [last]) as [|q rest] eqn:E; [by destruct parts|].
    exists (p +:+ sep +:+ pre). rewrite IH. by rewrite !append_assoc.
Qed.

(** X11.  Every query ends with [has:attachment]; without search terms,
    patterns and days it is that text alone. *)
Theorem buildGmailQuery_has_attachment (daysAgo : Z -> DateFields)
    (entityPatterns : list string) (searchTerms : string) (daysBack : Z) :
  endsWith "has:attachment"
    (buildGmailQuery daysAgo entityPatterns searchTerms daysBack) = true
  /\ (entityPatterns = [] -> trim searchTerms = EmptyString -> (daysBack <= 0)%Z ->
      buildGmailQuery daysAgo entityPatterns searchTerms daysBack = "has:attachment").
Proof.
  split.
  - apply endsWith_spec. unfold buildGmailQuery.
    rewrite !app_assoc. apply join_snoc.
  - intros -> Hterms Hdays. unfold buildGmailQuery. rewrite Hterms.
    destruct (0 <? daysBack)%Z eqn:E; [apply Z.ltb_lt in E; lia|]. reflexivity.
Qed.

Lemma buildGmailQuery_has_attachment_witness :
  buildGmailQuery (fun _ => {| localYear := 2024; localMonth := 2; localDay := 15;
                               isoText := EmptyString |})
    [] "   " 0 = "has:attachment".
Proof.
  apply buildGmailQuery_has_attachment; [reflexivity | reflexivity | lia].
Defined.

Lemma startsWith_append (p s : string) : startsWith p (p +:+ s) = true.
Proof.
  unfold startsWith, listEqb. rewrite chars_app, take_app_length.
  by apply bool_decide_eq_true_2.
Qed.

Lemma substringFrom_append (p s : string) :
  substringFrom (length (chars p)) (p +:+ s) = s.
Proof. unfold substringFrom. rewrite chars_app, drop_app_length. apply str_chars. Qed.

(** X12.  In the query a wildcard pattern [*@domain] and the bare text
    [domain] give the same clause, [from:domain]: the query does not tell a
    domain from an address. *)
Theorem buildGmailQuery_wildcard_clause (daysAgo : Z -> DateFields)
    (before after : list string) (domain searchTerms : string) (daysBack : Z) :
  startsWith "*@" domain = false ->
  fromClause ("*@" +:+ domain) = "from:" +:+ domain
  /\ buildGmailQuery daysAgo (before ++ ("*@" +:+ domain) :: after) searchTerms daysBack
     = buildGmailQuery daysAgo (before ++ domain :: after) searchTerms daysBack.
Proof.
  intros Hd.
  assert (Hc : fromClause ("*@" +:+ domain) = fromClause domain).
  { unfold fromClause. rewrite startsWith_append, Hd.
    change 2 with (length (chars "*@")). by rewrite substringFrom_append. }
  split.
  - rewrite Hc. unfold fromClause. by rewrite Hd.
  - unfold buildGmailQuery. rewrite !map_app. cbn [map]. rewrite Hc.
    by destruct before.
Qed.

Lemma buildGmailQuery_wildcard_clause_witness :
  buildGmailQuery (fun _ => {| localYear := 2024; localMonth := 2; localDay := 15;
                               isoText := EmptyString |})
    ([] ++ ("*@" +:+ "acme.com") :: ["billing@acme.corp"]) "invoice" 30
  = "(invoice) {from:acme.com from:billing@acme.corp} after:2024/03/15 has:attachment".
Proof.
  destruct (buildGmailQuery_wildcard_clause
              (fun _ => {| localYear := 2024; localMonth := 2; localDay := 15;
                           isoText := EmptyString |})
              [] ["billing@acme.corp"] "acme.com" "invoice" 30) as [_ H];
    [reflexivity|].
  rewrite H. vm_compute. reflexivity.
Defined.

(** ** The name of a part without file name *)

Lemma getExtFromMime_values (mimeType ext : string) :
  getExtFromMime mimeType = Some ext ->
  In ext ["pdf"; "png"; "jpg"; "gif"; "txt"; "html"; "doc"; "docx"; "xls"; "xlsx"; "bin"].
Proof.
  unfold getExtFromMime, extTable. cbn [lookupExt].
  repeat (case_bool_decide; [intros [= <-]; simpl; tauto|]).
  intros [= <-]. simpl. tauto.
Qed.

Lemma toLowerCase_append (s t : string) :
  toLowerCase (s +:+ t) = toLowerCase s +:+ toLowerCase t.
Proof. unfold toLowerCase. by rewrite chars_app, map_app, str_app. Qed.

Lemma stripExtChars_snoc (a t : list ascii) :
  t <> [] -> existsb isDot t = false -> stripExtChars (a ++ dot :: t) = a.
Proof.
  intros Hne Ht. induction a as [|c a IH]; simpl.
  - rewrite Ht. simpl. by rewrite bool_decide_eq_false_2.
  - rewrite existsb_app_dot. simpl. rewrite andb_false_r. simpl. by rewrite IH.
Qed.

Lemma isDigit_lowerChar (c : ascii) : isDigit (lowerChar c) = isDigit c.
Proof. destruct c as [[] [] [] [] [] [] [] []]; vm_compute; reflexivity. Qed.

Lemma allDigits_lower (l : list ascii) : allDigits (map lowerChar l) = allDigits l.
Proof.
  unfold allDigits. induction l as [|c l IH]; [reflexivity|]. simpl.
  by rewrite isDigit_lowerChar, IH.
Qed.

(** The pattern [inline] is the only one that a name [inline_...] can match. *)
Lemma generic_inline_stem (l : list ascii) :
  existsb (fun p => p (chars "inline_" ++ l)) genericPatterns = allDigits l.
Proof.
  unfold genericPatterns, testAfter, afterPrefix, listEqb. cbn [existsb].
  change (chars "inline_" ++ l)
    with ("i" :: "n" :: "l" :: "i" :: "n" :: "e" :: "_" :: l)%char.
  rewrite (bool_decide_eq_true_2 (take (length (chars "inline")) _ = chars "inline"))
    by reflexivity.
  rewrite !(bool_decide_eq_false_2 (take _ _ = _)) by (simpl; discriminate).
  cbn [drop length chars String.list_ascii_of_string optUnderscoreDigits].
  change (isUnderscore "_") with true. cbn [orb]. by rewrite !orb_false_r.
Qed.

Lemma fallback_stem_generic (pid ext : string) :
  In ext ["pdf"; "png"; "jpg"; "gif"; "txt"; "html"; "doc"; "docx"; "xls"; "xlsx"; "bin"] ->
  isGenericFilename ("inline_" +:+ pid +:+ "." +:+ ext) = allDigits (chars pid).
Proof.
  intros Hext. unfold isGenericFilename.
  rewrite !toLowerCase_append.
  assert (He : toLowerCase ext = ext /\ chars ext <> [] /\ existsb isDot (chars ext) = false).
  { simpl in Hext.
    repeat (destruct Hext as [<-|Hext]; [repeat split; discriminate|]).
    destruct Hext. }
  destruct He as (-> & Hne & Hdot).
  change (toLowerCase "inline_") with "inline_". change (toLowerCase ".") with ".".
  unfold stripExt. rewrite <- append_assoc, !chars_app.
  change (chars ".") with [dot].
  change ((chars "inline_" ++ chars (toLowerCase pid)) ++ [dot] ++ chars ext)
    with ((chars "inline_" ++ chars (toLowerCase pid)) ++ dot :: chars ext).
  rewrite (stripExtChars_snoc _ _ Hne Hdot), chars_str, generic_inline_stem.
  unfold toLowerCase. by rewrite chars_str, allDigits_lower.
Qed.

(** X13.  The file name that the search gives to a part without one,
    [inline_<partId>.<ext>], is a generic name for the bundle exactly when
    the part id is made of digits: the attachment of part 2 is renamed after
    the subject, the attachment of the nested part 0.1, or of a part
    without id, keeps the name [inline_0.1.<ext>] or [inline_unknown.<ext>]. *)
Theorem fallbackFilename_generic (partId : option string) (mimeType ext : string) :
  getExtFromMime mimeType = Some ext ->
  isGenericFilename (fallbackFilename partId ext)
  = match partId with
    | Some p => negb (bool_decide (p = EmptyString)) && allDigits (chars p)
    | None => false
    end.
Proof.
  intros Hext. apply getExtFromMime_values in Hext.
  unfold fallbackFilename. rewrite (fallback_stem_generic _ _ Hext).
  destruct partId as [p|]; [|reflexivity]. simpl. unfold orElse.
  case_bool_decide; reflexivity.
Qed.

Lemma fallbackFilename_generic_witness :
  isGenericFilename (fallbackFilename (Some "2") "pdf") = true
  /\ isGenericFilename (fallbackFilename (Some "0.1") "pdf") = false.
Proof.
  split.
  - rewrite (fallbackFilename_generic (Some "2") "application/pdf" "pdf");
      reflexivity.
  - rewrite (fallbackFilename_generic (Some "0.1") "application/pdf" "pdf");
      reflexivity.
Defined.

(** ** The store *)

Module StorageFacts.
Import Storage.

Lemma mapSet_fresh {V : Type} (key : string) (v : V) (m : list (string * V)) :
  ~ In key (map fst m) -> mapSet key v m = m ++ [(key, v)].
Proof.
  induction m as [|[k v'] m IH]; simpl; [reflexivity|].
  intros H. rewrite bool_decide_eq_false_2 by tauto. rewrite IH by tauto. reflexivity.
Qed.

Lemma NoDup_keys_value {V : Type} (m : list (string * V)) k v v' :
  NoDup (map fst m) -> In (k, v) m -> In (k, v') m -> v = v'.
Proof.
  induction m as [|[k0 v0] m IH]; simpl; [tauto|].
  intros Hnd. apply NoDup_cons in Hnd as [Hk Hnd].
  rewrite list_elem_of_In in Hk.
  intros [H1|H1] [H2|H2].
  - congruence.
  - injection H1 as -> ->. exfalso. apply Hk.
    apply in_map_iff. by exists (k, v').
  - injection H2 as -> ->. exfalso. apply Hk.
    apply in_map_iff. by exists (k, v).
  - by apply IH.
Qed.

Lemma filter_twice {A : Type} (f g : A -> bool) (l : list A) :
  List.filter f (List.filter g l) = List.filter (fun x => g x && f x) l.
Proof.
  induction l as [|x l IH]; simpl; [reflexivity|].
  destruct (g x); simpl; [|exact IH]. destruct (f x); by rewrite IH.
Qed.

Lemma delete_loop {V : Type} (P : V -> bool) (l acc : list (string * V)) :
  fold_left (fun m kv => if P (snd kv) then mapDelete (fst kv) m else m) l acc
  = List.filter (fun kv => negb (deletes P l kv)) acc.
Proof.
  revert acc. induction l as [|[k v] l IH]; intros acc.
  - simpl. induction acc as [|x acc IHa]; simpl; [reflexivity|]. by rewrite <- IHa.
  - cbn [fold_left fst snd]. rewrite IH. unfold mapDelete.
    destruct (P v) eqn:Ev.
    + rewrite filter_twice. apply List.filter_ext. intros [k' v'].
      unfold deletes. cbn [existsb fst snd]. rewrite Ev.
      destruct (existsb _ l); repeat case_bool_decide; try reflexivity; congruence.
    + apply List.filter_ext. intros [k' v'].
      unfold deletes. cbn [existsb fst snd]. by rewrite Ev.
Qed.

Lemma delete_loop_self {V : Type} (P : V -> bool) (m : list (string * V)) :
  NoDup (map fst m) ->
  fold_left (fun acc kv => if P (snd kv) then mapDelete (fst kv) acc else acc) m m
  = List.filter (fun kv => negb (P (snd kv))) m.
Proof.
  intros Hnd. rewrite delete_loop. apply List.filter_ext_in.
  intros [k v] Hin. f_equal. unfold deletes. simpl.
  destruct (P v) eqn:Ev.
  - apply existsb_exists. exists (k, v). split; [assumption|]. simpl.
    rewrite Ev. by rewrite bool_decide_eq_true_2.
  - apply not_true_is_false. intros H. apply existsb_exists in H as ([k' v'] & Hin' & H).
    simpl in H. apply andb_true_iff in H as [Hp Hk].
    apply bool_decide_eq_true_1 in Hk. subst k'.
    rewrite (NoDup_keys_value m k v v' Hnd Hin Hin') in Ev. congruence.
Qed.

Section WithUUID.
Variable randomUUID : nat -> string.

Lemma deleteEntity_cascade_mappings (id : string) (st : Store) :
  wellFormed randomUUID st ->
  getMappings None (deleteEntity id st)
  = List.filter (fun m => negb (bool_decide (mapping_entityId m = id)))
      (getMappings None st).
Proof.
  intros Hwf. unfold getMappings, deleteEntity. cbn [entities mappings].
  pose proof (delete_loop_self (fun m => bool_decide (mapping_entityId m = id))
                (mappings st) (wf_mapping_keys _ _ Hwf)) as Hloop.
  cbv beta in Hloop. rewrite Hloop. clear Hloop.
  induction (mappings st) as [|[k m] l IH]; simpl; [reflexivity|].
  destruct (bool_decide (mapping_entityId m = id)); simpl; by rewrite IH.
Qed.

(** X14.  Deleting an entity deletes its mappings with it: the entity is no
    more among the entities, no mapping refers to it, and the other entities
    and mappings stay, in their order. *)
Theorem deleteEntity_cascades (id : string) (st : Store) :
  wellFormed randomUUID st ->
  getEntities (deleteEntity id st)
  = List.filter (fun e => negb (bool_decide (entity_id e = id))) (getEntities st)
  /\ getMappings None (deleteEntity id st)
     = List.filter (fun m => negb (bool_decide (mapping_entityId m = id)))
         (getMappings None st).
Proof.
  intros Hwf. split; [unfold getEntities, deleteEntity; cbn [entities]|].
  - unfold mapDelete. pose proof (wf_entity_id _ _ Hwf) as Hid.
    induction (entities st) as [|[k e] l IH]; simpl; [reflexivity|].
    rewrite (Hid k e) by (left; reflexivity).
    destruct (bool_decide (k = id)); simpl.
    + apply IH. intros k' e' H. apply Hid. by right.
    + f_equal. apply IH. intros k' e' H. apply Hid. by right.
  - by apply deleteEntity_cascade_mappings.
Qed.

(** The entity of an answer is the entity of a mapping of the list. *)
Lemma matchMappings_answer_in (entityMap : gmap string string)
    (entityIds : list string) (fromAddress : string)
    (allMappings : list EmailMapping) (id : string) :
  fst (matchMappings entityMap entityIds fromAddress allMappings) = Some id ->
  exists mapping, In mapping allMappings /\ mapping_entityId mapping = id.
Proof.
  induction allMappings as [|m ms IH]; [discriminate|]. cbn [matchMappings].
  destruct (bool_decide _ && patternMatches _ _).
  - intros [= <-]. exists m. split; [by left | reflexivity].
  - intros H. destruct (IH H) as (mapping & Hin & Hm).
    exists mapping. split; [by right | exact Hm].
Qed.

(** X15.  An entity that was deleted is never the answer of the matcher:
    none of the mappings that the store gives to it refers to the entity. *)
Theorem deleted_entity_never_matched (id : string) (st : Store)
    (entityIds : list string) (from : string) :
  wellFormed randomUUID st ->
  fst (matchEntity (getEntities (deleteEntity id st))
         (getMappings None (deleteEntity id st)) entityIds from)
  <> Some id.
Proof.
  intros Hwf Hid. apply matchMappings_answer_in in Hid as (mapping & Hin & Hm).
  rewrite (deleteEntity_cascade_mappings id st Hwf) in Hin.
  apply List.filter_In in Hin as [_ Hne].
  rewrite Hm in Hne. by rewrite bool_decide_eq_true_2 in Hne.
Qed.

(** *** Creating entities and mappings *)

Lemma draw_fresh_entity (st : Store) :
  wellFormed randomUUID st -> ~ In (randomUUID (draws st)) (map fst (entities st)).
Proof.
  intros Hwf Hin. destruct (wf_entities_drawn _ _ Hwf _ Hin) as (n & Hn & Heq).
  apply (wf_inj _ _ Hwf) in Heq. lia.
Qed.

Lemma draw_fresh_mapping (st : Store) :
  wellFormed randomUUID st -> ~ In (randomUUID (draws st)) (map fst (mappings st)).
Proof.
  intros Hwf Hin. destruct (wf_mappings_drawn _ _ Hwf _ Hin) as (n & Hn & Heq).
  apply (wf_inj _ _ Hwf) in Heq. lia.
Qed.

Lemma NoDup_snoc_keys {V : Type} (m : list (string * V)) k v :
  NoDup (map fst m) -> ~ In k (map fst m) -> NoDup (map fst (m ++ [(k, v)])).
Proof.
  intros Hnd Hk. rewrite map_app. apply NoDup_app. split; [assumption|].
  split; [|apply NoDup_singleton].
  intros x Hx Hx'. apply list_elem_of_In in Hx. apply list_elem_of_In in Hx'.
  simpl in Hx'. destruct Hx' as [<-|[]]. contradiction.
Qed.

Lemma createEntity_spec (name : string) (st : Store) :
  wellFormed randomUUID st ->
  let entity := {| entity_id := randomUUID (draws st); entity_name := name |} in
  createEntity randomUUID name st
  = (entity,
     {| entities := entities st ++ [(entity_id entity, entity)];
        mappings := mappings st;
        draws := S (draws st) |})
  /\ wellFormed randomUUID (snd (createEntity randomUUID name st)).
Proof.
  intros Hwf entity. unfold createEntity. fold entity.
  rewrite (mapSet_fresh _ _ _ (draw_fresh_entity st Hwf)).
  split; [reflexivity|]. cbn [snd]. destruct Hwf as [Hinj Hne H1 H2 H3 H4 H5 H6].
  split; cbn [entities mappings draws].
  - exact Hinj.
  - exact Hne.
  - apply NoDup_snoc_keys; [exact H1|].
    apply draw_fresh_entity. by split.
  - exact H2.
  - intros k e Hin. apply in_app_or in Hin as [Hin|[[= <- <-]|[]]]; [by apply H3 | reflexivity].
  - intros k Hin. rewrite map_app in Hin. apply in_app_or in Hin as [Hin|[<-|[]]].
    + destruct (H4 k Hin) as (n & Hn & ->). exists n. split; [lia | reflexivity].
    + exists (draws st). split; [lia | reflexivity].
  - intros k Hin. destruct (H5 k Hin) as (n & Hn & ->). exists n. split; [lia | reflexivity].
  - intros k m Hin. destruct (H6 k m Hin) as (n & Hn & ->). exists n. split; [lia | reflexivity].
Qed.

Lemma createMapping_spec (entityId pattern : string) (st : Store) :
  wellFormed randomUUID st ->
  (exists n, n < draws st /\ entityId = randomUUID n) ->
  createMapping randomUUID entityId pattern st
  = {| entities := entities st;
       mappings :=
         mappings st
         ++ [(randomUUID (draws st),
              {| mapping_entityId := entityId; mapping_pattern := pattern |})];
       draws := S (draws st) |}
  /\ wellFormed randomUUID (createMapping randomUUID entityId pattern st).
Proof.
  intros Hwf Hid. unfold createMapping.
  rewrite (mapSet_fresh _ _ _ (draw_fresh_mapping st Hwf)).
  split; [reflexivity|]. destruct Hwf as [Hinj Hne H1 H2 H3 H4 H5 H6].
  split; cbn [entities mappings draws].
  - exact Hinj.
  - exact Hne.
  - exact H1.
  - apply NoDup_snoc_keys; [exact H2|].
    apply draw_fresh_mapping. by split.
  - exact H3.
  - intros k Hin. destruct (H4 k Hin) as (n & Hn & ->). exists n. split; [lia | reflexivity].
  - intros k Hin. rewrite map_app in Hin. apply in_app_or in Hin as [Hin|[<-|[]]].
    + destruct (H5 k Hin) as (n & Hn & ->). exists n. split; [lia | reflexivity].
    + exists (draws st). split; [lia | reflexivity].
  - intros k m Hin. apply in_app_or in Hin as [Hin|[[= <- <-]|[]]].
    + destruct (H6 k m Hin) as (n & Hn & ->). exists n. split; [lia | reflexivity].
    + destruct Hid as (n & Hn & ->). exists n. split; [lia | reflexivity].
Qed.

(** The mappings that the loop over the patterns of an entity creates. *)
Lemma createMappings_spec (entityId : string) (patterns : list string) :
  forall st,
    wellFormed randomUUID st ->
    (exists n, n < draws st /\ entityId = randomUUID n) ->
    let st' := fold_left (fun s pattern => createMapping randomUUID entityId pattern s)
                 patterns st in
    wellFormed randomUUID st'
    /\ entities st' = entities st
    /\ draws st <= draws st'
    /\ map snd (mappings st')
       = map snd (mappings st)
         ++ map (fun pattern =>
                   {| mapping_entityId := entityId; mapping_pattern := pattern |})
              patterns.
Proof.
  induction patterns as [|pattern patterns IH]; intros st Hwf Hid; cbn [fold_left].
  - split; [assumption|]. split; [reflexivity|]. split; [lia|]. by rewrite app_nil_r.
  - destruct (createMapping_spec entityId pattern st Hwf Hid) as [Heq Hwf1].
    destruct (IH (createMapping randomUUID entityId pattern st) Hwf1)
      as (Hwf2 & He & Hd & Hm).
    { destruct Hid as (n & Hn & ->). exists n. rewrite Heq. cbn [draws].
      split; [lia | reflexivity]. }
    split; [exact Hwf2|]. rewrite He, Hm, Heq. cbn [entities mappings draws] in *.
    split; [reflexivity|]. rewrite Heq in Hd. cbn [draws] in Hd. split; [lia|].
    rewrite map_app, <- app_assoc. reflexivity.
Qed.

Lemma patternsOf_created (id : string) (patterns : list string) :
  patternsOf id
    (map (fun pattern => {| mapping_entityId := id; mapping_pattern := pattern |})
       patterns)
  = patterns.
Proof.
  unfold patternsOf. induction patterns as [|p ps IH]; [reflexivity|]. simpl.
  rewrite bool_decide_eq_true_2 by reflexivity. simpl. by rewrite IH.
Qed.

Lemma patternsOf_other (id other : string) (patterns : list string) :
  other <> id ->
  patternsOf id
    (map (fun pattern => {| mapping_entityId := other; mapping_pattern := pattern |})
       patterns)
  = [].
Proof.
  intros Hne. unfold patternsOf. induction patterns as [|p ps IH]; [reflexivity|]. simpl.
  rewrite bool_decide_eq_false_2 by assumption. exact IH.
Qed.

Lemma patternsOf_app id l k : patternsOf id (l ++ k) = patternsOf id l ++ patternsOf id k.
Proof. unfold patternsOf. by rewrite List.filter_app, map_app. Qed.

Lemma patternsOf_unreferenced (id : string) (st : Store) :
  wellFormed randomUUID st ->
  patternsOf (randomUUID (draws st)) (map snd (mappings st)) = [].
Proof.
  intros Hwf. unfold patternsOf.
  assert (H : forall k m, In (k, m) (mappings st) ->
                mapping_entityId m <> randomUUID (draws st)).
  { intros k m Hin Heq. destruct (wf_refs_drawn _ _ Hwf k m Hin) as (n & Hn & Hm).
    rewrite Hm in Heq. apply (wf_inj _ _ Hwf) in Heq. lia. }
  induction (mappings st) as [|[k m] l IH]; [reflexivity|]. simpl.
  rewrite bool_decide_eq_false_2 by (apply (H k); by left).
  apply IH. intros k' m' Hin. apply (H k'). by right.
Qed.

(** What [POST /api/entities] answers and leaves in the store. *)
Lemma postEntity_spec (name : string) (patterns : list string) (st : Store) :
  wellFormed randomUUID st ->
  let entity := {| entity_id := randomUUID (draws st); entity_name := name |} in
  fst (postEntity randomUUID name patterns st) = (entity, patterns)
  /\ listEntities (snd (postEntity randomUUID name patterns st))
     = listEntities st ++ [(entity, patterns)]
  /\ wellFormed randomUUID (snd (postEntity randomUUID name patterns st)).
Proof.
  intros Hwf entity. unfold postEntity.
  destruct (createEntity_spec name st Hwf) as [Hce Hwf1]. fold entity in Hce.
  rewrite Hce in *. cbn [snd] in Hwf1. cbn [entity_id entity].
  set (s1 := {| entities := entities st ++ [(randomUUID (draws st), entity)];
                mappings := mappings st; draws := S (draws st) |}) in *.
  destruct (createMappings_spec (randomUUID (draws st)) patterns s1 Hwf1)
    as (Hwf2 & He & _ & Hm).
  { exists (draws st). cbn [draws s1]. split; [lia | reflexivity]. }
  cbn [fst snd]. set (s2 := fold_left _ patterns s1) in *.
  cbn [mappings entities s1] in Hm, He.
  assert (Hnew : patternsOf (randomUUID (draws st)) (map snd (mappings s2)) = patterns).
  { rewrite Hm, patternsOf_app, (patternsOf_unreferenced (randomUUID (draws st)) st Hwf).
    apply patternsOf_created. }
  split; [|split; [|exact Hwf2]].
  - f_equal. unfold getMappings, truthy.
    rewrite bool_decide_eq_false_2 by apply (wf_nonempty _ _ Hwf). exact Hnew.
  - unfold listEntities, getEntities, getMappings. rewrite He, Hm.
    rewrite !map_app. cbn [map snd]. f_equal.
    + apply map_ext_in. intros e Hin. f_equal.
      fold (patternsOf (entity_id e)
              (map snd (mappings st)
               ++ map (fun pattern =>
                         {| mapping_entityId := randomUUID (draws st);
                            mapping_pattern := pattern |}) patterns)).
      rewrite patternsOf_app, patternsOf_other, app_nil_r; [reflexivity|].
      apply in_map_iff in Hin as ([k e'] & <- & Hin). cbn [snd].
      rewrite (wf_entity_id _ _ Hwf k e' Hin).
      intros Heq. apply (draw_fresh_entity st Hwf). rewrite Heq.
      apply in_map_iff. by exists (k, e').
    + do 2 f_equal. rewrite <- Hm. exact Hnew.
Qed.

(** X16.  Creating an entity with patterns and listing the entities: the
    answer of the creation carries the patterns as they were given, and the
    list is the former list followed by the new entity with these patterns. *)
Theorem postEntity_then_list (name : string) (patterns : list string) (st : Store) :
  wellFormed randomUUID st ->
  exists entity,
    fst (postEntity randomUUID name patterns st) = (entity, patterns)
    /\ entity_name entity = name
    /\ listEntities (snd (postEntity randomUUID name patterns st))
       = listEntities st ++ [(entity, patterns)].
Proof.
  intros Hwf. destruct (postEntity_spec name patterns st Hwf) as (H1 & H2 & _).
  eexists. split; [exact H1|]. split; [reflexivity | exact H2].
Qed.

Lemma bulkImportEntities_step (item : string * list string) (st : Store) :
  (let '(entity, s1) := createEntity randomUUID (fst item) st in
   fold_left (fun s2 pattern => createMapping randomUUID (entity_id entity) pattern s2)
     (snd item) s1)
  = snd (postEntity randomUUID (fst item) (snd item) st).
Proof. unfold postEntity. by destruct (createEntity randomUUID (fst item) st). Qed.

(** X17.  After a bulk import the list of the entities is the former list
    followed by the imported entities, in the order of the import, each with
    its name and its patterns in the order they were given; an import never
    merges with an entity of the same name that the store holds. *)
Theorem bulkImportEntities_then_list (data : list (string * list string)) (st : Store) :
  wellFormed randomUUID st ->
  named (listEntities (bulkImportEntities randomUUID data st))
  = named (listEntities st) ++ data
  /\ wellFormed randomUUID (bulkImportEntities randomUUID data st).
Proof.
  unfold bulkImportEntities. revert st.
  induction data as [|[name patterns] data IH]; intros st Hwf; cbn [fold_left].
  - split; [by rewrite app_nil_r | exact Hwf].
  - pose proof (bulkImportEntities_step (name, patterns) st) as Hstep.
    cbn [fst snd] in Hstep. cbv beta. cbn [fst snd]. rewrite Hstep.
    destruct (postEntity_spec name patterns st Hwf) as (_ & Hlist & Hwf1).
    destruct (IH _ Hwf1) as [Hnamed Hwf2]. split; [|exact Hwf2].
    rewrite Hnamed, Hlist. unfold named. rewrite map_app, <- app_assoc. reflexivity.
Qed.

End WithUUID.

Lemma demoUUID_inj i j : demoUUID i = demoUUID j -> i = j.
Proof.
  unfold demoUUID. intros H. apply str_inj in H.
  apply (f_equal length) in H. rewrite !length_replicate in H. lia.
Qed.

Lemma emptyStore_wellFormed : wellFormed demoUUID emptyStore.
Proof.
  split; simpl; try tauto; try constructor.
  - apply demoUUID_inj.
  - intros n. unfold demoUUID. apply str_nonempty. discriminate.
Qed.

Lemma acmeStore_wellFormed :
  wellFormed demoUUID (snd (postEntity demoUUID "Acme Corp" ["*@acme.com"] emptyStore)).
Proof. apply postEntity_spec, emptyStore_wellFormed. Qed.

Lemma deleteEntity_cascades_witness :
  getEntities (deleteEntity "u"
     (snd (postEntity demoUUID "Acme Corp" ["*@acme.com"] emptyStore))) = []
  /\ getMappings None (deleteEntity "u"
        (snd (postEntity demoUUID "Acme Corp" ["*@acme.com"] emptyStore))) = [].
Proof.
  destruct (deleteEntity_cascades demoUUID "u" _ acmeStore_wellFormed) as [H1 H2].
  rewrite H1, H2. split; reflexivity.
Defined.

Lemma deleted_entity_never_matched_witness :
  fst (matchEntity
         (getEntities (deleteEntity "u"
            (snd (postEntity demoUUID "Acme Corp" ["*@acme.com"] emptyStore))))
         (getMappings None (deleteEntity "u"
            (snd (postEntity demoUUID "Acme Corp" ["*@acme.com"] emptyStore))))
         ["u"] "billing@acme.com")
  <> Some "u".
Proof.
  exact (deleted_entity_never_matched demoUUID "u" _ ["u"] "billing@acme.com"
           acmeStore_wellFormed).
Defined.

Lemma postEntity_then_list_witness :
  exists entity,
    fst (postEntity demoUUID "Acme Corp" ["*@acme.com"; "billing@acme.corp"] emptyStore)
    = (entity, ["*@acme.com"; "billing@acme.corp"])
    /\ entity_name entity = "Acme Corp"
    /\ listEntities (snd (postEntity demoUUID "Acme Corp"
                            ["*@acme.com"; "billing@acme.corp"] emptyStore))
       = listEntities emptyStore ++ [(entity, ["*@acme.com"; "billing@acme.corp"])].
Proof.
  exact (postEntity_then_list demoUUID "Acme Corp" ["*@acme.com"; "billing@acme.corp"]
           emptyStore emptyStore_wellFormed).
Defined.

Lemma bulkImportEntities_then_list_witness :
  named (listEntities (bulkImportEntities demoUUID
           [("Acme Corp", ["*@acme.com"]); ("Acme Corp", []); ("Globex", ["a@globex.com"])]
           emptyStore))
  = [("Acme Corp", ["*@acme.com"]); ("Acme Corp", []); ("Globex", ["a@globex.com"])].
Proof.
  destruct (bulkImportEntities_then_list demoUUID
              [("Acme Corp", ["*@acme.com"]); ("Acme Corp", []); ("Globex", ["a@globex.com"])]
              emptyStore emptyStore_wellFormed) as [H _].
  exact H.
Defined.

End StorageFacts.

(** ** The import of a spreadsheet *)

Module SheetFacts.
Import Gmail Sheet.

Lemma addPattern_keys name p m : map fst (addPattern name p m) = map fst m.
Proof.
  unfold addPattern. rewrite map_map. apply map_ext.
  intros [k ps]. simpl. by case_bool_decide.
Qed.

Lemma addPattern_tidy name p m :
  p <> EmptyString -> tidyMap m -> tidyMap (addPattern name p m).
Proof.
  intros Hp [Hk Hall]. split; [by rewrite addPattern_keys|].
  unfold addPattern. apply Forall_map. eapply Forall_impl; [exact Hall|].
  intros [k ps] (H1 & H2 & H3 & H4). simpl in *.
  case_bool_decide; simpl; [|tauto].
  split; [assumption|]. split; [assumption|].
  case_bool_decide as Hin; [tauto|]. split.
  - apply NoDup_app. split; [assumption|]. split; [|apply NoDup_singleton].
    intros x Hx Hx'. apply list_elem_of_In in Hx'. simpl in Hx'.
    destruct Hx' as [<-|[]]. contradiction.
  - apply Forall_app. split; [assumption|]. by constructor.
Qed.

Lemma addPatterns_tidy name ps m :
  Forall (fun p => p <> EmptyString) ps -> tidyMap m ->
  tidyMap (fold_left (fun s p => addPattern name p s) ps m).
Proof.
  intros Hps. revert m. induction Hps as [|p ps Hp _ IH]; intros m Hm; simpl.
  - exact Hm.
  - apply IH. by apply addPattern_tidy.
Qed.

Lemma splitList_nonempty s : Forall (fun p => p <> EmptyString) (splitList s).
Proof.
  unfold splitList. apply Forall_forall. intros p Hp.
  apply list_elem_of_In, List.filter_In in Hp as [_ Hp].
  unfold truthy in Hp. apply negb_true_iff, bool_decide_eq_false_1 in Hp. exact Hp.
Qed.

Lemma emailsOf_nonempty row : Forall (fun p => p <> EmptyString) (emailsOf row).
Proof.
  unfold emailsOf. destruct (truthy _); [apply splitList_nonempty | constructor].
Qed.

Lemma domainPatternsOf_nonempty row :
  Forall (fun p => p <> EmptyString) (domainPatternsOf row).
Proof.
  unfold domainPatternsOf. destruct (truthy _); [|constructor].
  apply Forall_map. apply Forall_forall. intros d _. discriminate.
Qed.

Lemma has_spec name m : has name m = true <-> In name (map fst m).
Proof.
  unfold has. rewrite existsb_exists, in_map_iff. split.
  - intros (kv & Hin & H). apply bool_decide_eq_true_1 in H. by exists kv.
  - intros (kv & H & Hin). exists kv. split; [assumption|].
    by apply bool_decide_eq_true_2.
Qed.

Lemma importRow_tidy m row : tidyMap m -> tidyMap (importRow m row).
Proof.
  intros Hm. unfold importRow.
  generalize (trim_idempotent (pick row nameColumns)).
  generalize (trim (pick row nameColumns)) as name. intros name Htrim.
  destruct (truthy name) eqn:Hname; [|exact Hm].
  apply addPatterns_tidy; [apply domainPatternsOf_nonempty|].
  apply addPatterns_tidy; [apply emailsOf_nonempty|].
  destruct (has _ m) eqn:Hhas; [exact Hm|].
  destruct Hm as [Hk Hall]. split.
  - rewrite map_app. apply NoDup_app. split; [assumption|].
    split; [|apply NoDup_singleton].
    intros x Hx Hx'. apply list_elem_of_In in Hx, Hx'. simpl in Hx'.
    destruct Hx' as [<-|[]]. apply (proj2 (has_spec _ _)) in Hx. congruence.
  - apply Forall_app. split; [assumption|]. constructor; [|constructor]. simpl.
    unfold truthy in Hname. apply negb_true_iff, bool_decide_eq_false_1 in Hname.
    split; [assumption|]. split; [exact Htrim|].
    split; constructor.
Qed.

Lemma importRows_tidy rows : forall m, tidyMap m -> tidyMap (fold_left importRow rows m).
Proof.
  induction rows as [|row rows IH]; intros m Hm; simpl; [exact Hm|].
  apply IH. by apply importRow_tidy.
Qed.

(** X18.  Whatever the rows, the import gives each name once, no name is
    empty or has white space around it, and under a name no pattern is empty
    and no pattern comes twice. *)
Theorem importRows_tidy_data (rows : list (gmap string Cell)) :
  NoDup (map fst (importRows rows))
  /\ forall name patterns,
       In (name, patterns) (importRows rows) ->
       name <> EmptyString /\ trim name = name
       /\ NoDup patterns
       /\ forall p, In p patterns -> p <> EmptyString.
Proof.
  destruct (importRows_tidy rows []) as [Hk Hall].
  { split; constructor. }
  split; [exact Hk|]. intros name patterns Hin.
  rewrite Forall_forall in Hall. apply list_elem_of_In in Hin.
  destruct (Hall _ Hin) as (H1 & H2 & H3 & H4). simpl in *.
  split; [assumption|]. split; [assumption|]. split; [assumption|].
  intros p Hp. rewrite Forall_forall in H4. apply H4. by apply list_elem_of_In.
Qed.

Lemma addPattern_keeps name' p' name p m :
  holds name p m -> holds name p (addPattern name' p' m).
Proof.
  intros (ps & Hin & Hp). unfold holds, addPattern.
  destruct (bool_decide (name = name')) eqn:E.
  - exists (if bool_decide (p' ∈ ps) then ps else ps ++ [p']). split.
    + apply in_map_iff. exists (name, ps). simpl. rewrite E. by split.
    + destruct (bool_decide (p' ∈ ps)); [exact Hp | apply in_or_app; by left].
  - exists ps. split; [|assumption].
    apply in_map_iff. exists (name, ps). simpl. rewrite E. by split.
Qed.

Lemma addPatterns_keeps name' ps name p m :
  holds name p m -> holds name p (fold_left (fun s q => addPattern name' q s) ps m).
Proof.
  revert m. induction ps as [|q ps IH]; intros m H; simpl; [exact H|].
  apply IH. by apply addPattern_keeps.
Qed.

Lemma addPattern_adds name p m :
  In name (map fst m) -> holds name p (addPattern name p m).
Proof.
  intros Hin. apply in_map_iff in Hin as ([k ps] & Hk & Hin). simpl in Hk. subst k.
  exists (if bool_decide (p ∈ ps) then ps else ps ++ [p]). split.
  - unfold addPattern. apply in_map_iff. exists (name, ps). simpl.
    rewrite bool_decide_eq_true_2 by reflexivity. by split.
  - destruct (bool_decide (p ∈ ps)) eqn:H.
    + apply bool_decide_eq_true_1 in H. by apply list_elem_of_In.
    + apply in_or_app. right. by left.
Qed.

Lemma addPatterns_adds name ps p m :
  In name (map fst m) -> In p ps ->
  holds name p (fold_left (fun s q => addPattern name q s) ps m).
Proof.
  revert m. induction ps as [|q ps IH]; intros m Hname Hp; [destruct Hp|].
  simpl. destruct Hp as [<-|Hp].
  - apply addPatterns_keeps. by apply addPattern_adds.
  - apply IH; [by rewrite addPattern_keys | assumption].
Qed.

Lemma addPatterns_keys name ps m :
  map fst (fold_left (fun s q => addPattern name q s) ps m) = map fst m.
Proof.
  revert m. induction ps as [|q ps IH]; intros m; simpl; [reflexivity|].
  by rewrite IH, addPattern_keys.
Qed.

Lemma importRow_keeps m row name p : holds name p m -> holds name p (importRow m row).
Proof.
  intros H. unfold importRow. destruct (truthy _); [|exact H].
  do 2 apply addPatterns_keeps.
  destruct (has _ m); [exact H|].
  destruct H as (ps & Hin & Hp). exists ps. split; [|assumption].
  apply in_or_app. by left.
Qed.

Lemma importRows_keeps rows m name p :
  holds name p m -> holds name p (fold_left importRow rows m).
Proof.
  revert m. induction rows as [|row rows IH]; intros m H; simpl; [exact H|].
  apply IH. by apply importRow_keeps.
Qed.

Lemma importRow_adds m row p :
  let name := trim (pick row nameColumns) in
  name <> EmptyString ->
  In p (emailsOf row ++ domainPatternsOf row) ->
  holds name p (importRow m row).
Proof.
  intros name Hname Hp. unfold importRow. fold name.
  unfold truthy. rewrite bool_decide_eq_false_2 by assumption. simpl.
  set (m1 := if has name m then m else m ++ [(name, [])]).
  assert (H1 : In name (map fst m1)).
  { unfold m1. destruct (has name m) eqn:E; [by apply has_spec|].
    rewrite map_app. apply in_or_app. right. by left. }
  apply in_app_or in Hp as [Hp|Hp].
  - apply addPatterns_keeps. by apply addPatterns_adds.
  - apply addPatterns_adds; [by rewrite addPatterns_keys | assumption].
Qed.

(** X19.  No pattern of a named row is lost: each address of its list of
    addresses, and [*@domain] for each domain of its list of domains, is
    among the patterns that the import gives under the name of the row,
    together with the patterns of the other rows of that name. *)
Theorem importRows_keeps_patterns (before after : list (gmap string Cell))
    (row : gmap string Cell) (p : string) :
  trim (pick row nameColumns) <> EmptyString ->
  In p (emailsOf row ++ domainPatternsOf row) ->
  exists patterns,
    In (trim (pick row nameColumns), patterns) (importRows (before ++ row :: after))
    /\ In p patterns.
Proof.
  intros Hname Hp. unfold importRows. rewrite fold_left_app. simpl.
  apply importRows_keeps. by apply importRow_adds.
Qed.

Example importRows_demo :
  importRows
    [ {[ "canonical_name" := CellText " Acme Corp ";
         "KNOWN EMAIL" := CellText "billing@acme.com; ap@acme.com,,";
         "KNOWN_DOMAINS" := CellText "acme.com" ]};
      {[ "Name" := CellText "Globex"; "Email" := CellNumber 0 ]};
      {[ "canonical_name" := CellText "   "; "Email" := CellText "lost@nowhere.org" ]};
      {[ "Entity" := CellText "Acme Corp";
         "Email" := CellText "ap@acme.com";
         "Domain" := CellText "acme.com;acme.co.uk" ]} ]
  = [ ("Acme Corp", ["billing@acme.com"; "ap@acme.com"; "*@acme.com"; "*@acme.co.uk"]);
      ("Globex", []) ].
Proof. vm_compute. reflexivity. Qed.

Lemma importRows_keeps_patterns_witness :
  exists patterns,
    In ("Acme Corp", patterns)
      (importRows
         ([] ++ {[ "canonical_name" := CellText " Acme Corp ";
                   "KNOWN_DOMAINS" := CellText "acme.com" ]} :: []))
    /\ In "*@acme.com" patterns.
Proof.
  destruct (importRows_keeps_patterns [] []
              {[ "canonical_name" := CellText " Acme Corp ";
                 "KNOWN_DOMAINS" := CellText "acme.com" ]} "*@acme.com")
    as (patterns & Hin & Hp).
  - vm_compute. discriminate.
  - vm_compute. tauto.
  - exists patterns. split; [|exact Hp].
    assert (E : trim (pick {[ "canonical_name" := CellText " Acme Corp ";
                              "KNOWN_DOMAINS" := CellText "acme.com" ]} nameColumns)
                = "Acme Corp") by (vm_compute; reflexivity).
    rewrite E in Hin. exact Hin.
Defined.

End SheetFacts.

(** ** [stripHtmlTags] *)

Module HtmlFacts.
Import Gmail Html.

Example stripHtmlTags_demo :
  map stripHtmlTags
    [ "<p>Dear Sir,</p><P>please find<BR />the <b>invoice</b>.</P>";
      "  a &lt;b&gt; &amp;amp; </div><br><br  ><br/>c ";
      "<li>one</li><li>two</li>" ]
  = [ "Dear Sir," +:+ str [lineFeed; lineFeed] +:+ "please find" +:+ str [lineFeed]
      +:+ "the invoice.";
      "a <b> &amp; " +:+ str [lineFeed; lineFeed] +:+ "c";
      "one" +:+ str [lineFeed] +:+ "two" ].
Proof. vm_compute. reflexivity. Qed.

Lemma replaceAll_skip m by_ k l :
  replaceAll m by_ k l = replaceAll m by_ 0 (drop k l).
Proof.
  revert k. induction l as [|c l IH]; intros k.
  - by destruct k.
  - destruct k as [|k]; [reflexivity|]. simpl. apply IH.
Qed.

Lemma lineFeeds_drop l : lineFeeds (drop (lineFeeds l) l) = 0.
Proof.
  induction l as [|c l IH]; [reflexivity|]. simpl.
  destruct (isLineFeed c) eqn:E; simpl; [exact IH | by rewrite E].
Qed.

Lemma lineFeeds_length l : lineFeeds l <= length l.
Proof.
  induction l as [|c l IH]; simpl; [lia|]. destruct (isLineFeed c); simpl; lia.
Qed.

Lemma collapse_few c r :
  lineFeeds (c :: r) < 3 -> collapse (c :: r) = c :: collapse r.
Proof.
  intros H. unfold collapse. cbn [replaceAll]. unfold threeLineFeeds.
  destruct (3 <=? lineFeeds (c :: r)) eqn:E; [apply Nat.leb_le in E; lia|].
  reflexivity.
Qed.

Lemma collapse_many l :
  3 <= lineFeeds l ->
  collapse l = lineFeed :: lineFeed :: collapse (drop (lineFeeds l) l).
Proof.
  intros H. destruct l as [|c r]; [simpl in H; lia|].
  unfold collapse. cbn [replaceAll]. unfold threeLineFeeds.
  rewrite (leb_correct _ _ H).
  destruct (lineFeeds (c :: r)) as [|n] eqn:E; [lia|].
  rewrite replaceAll_skip. reflexivity.
Qed.

Lemma collapse_lineFeeds l : lineFeeds l < 3 -> lineFeeds (collapse l) = lineFeeds l.
Proof.
  induction l as [|c r IH]; intros H; [reflexivity|].
  rewrite (collapse_few c r H). simpl in *.
  destruct (isLineFeed c); [|reflexivity]. rewrite IH; [reflexivity | lia].
Qed.

Lemma collapse_sparse l : sparse (collapse l).
Proof.
  remember (length l) as n eqn:Hn. revert l Hn.
  induction n as [n IH] using lt_wf_ind. intros l Hn.
  destruct l as [|c r]; [exact I|].
  destruct (le_lt_dec 3 (lineFeeds (c :: r))) as [Hmany|Hfew].
  - rewrite (collapse_many _ Hmany).
    set (rest := drop (lineFeeds (c :: r)) (c :: r)).
    assert (Hrest : lineFeeds (collapse rest) = 0).
    { rewrite collapse_lineFeeds; unfold rest; rewrite lineFeeds_drop; [reflexivity | lia]. }
    assert (Hs : sparse (collapse rest)).
    { apply (IH (length rest)); [|reflexivity].
      unfold rest. rewrite length_drop. subst n. simpl length. lia. }
    cbn [sparse lineFeeds]. change (isLineFeed lineFeed) with true. cbn iota.
    rewrite Hrest. repeat split; try lia. exact Hs.
  - rewrite (collapse_few c r Hfew).
    assert (Hs : sparse (collapse r)).
    { apply (IH (length r)); [subst n; simpl; lia | reflexivity]. }
    cbn [sparse]. split; [|exact Hs].
    simpl in Hfew. simpl. destruct (isLineFeed c); [|lia].
    rewrite collapse_lineFeeds; lia.
Qed.

Lemma sparse_suffix a b : sparse (a ++ b) -> sparse b.
Proof.
  induction a as [|c a IH]; [trivial|]. simpl. intros [_ H]. by apply IH.
Qed.

Lemma lineFeeds_prefix a b : lineFeeds a <= lineFeeds (a ++ b).
Proof.
  induction a as [|c a IH]; simpl; [lia|]. destruct (isLineFeed c); lia.
Qed.

Lemma sparse_prefix a b : sparse (a ++ b) -> sparse a.
Proof.
  induction a as [|c a IH]; [intros _; exact I|].
  change ((c :: a) ++ b) with (c :: (a ++ b)).
  cbn [sparse]. intros [H1 H2]. split; [|by apply IH].
  pose proof (lineFeeds_prefix (c :: a) b) as H.
  change ((c :: a) ++ b) with (c :: (a ++ b)) in H. lia.
Qed.

Lemma trimChars_infix l : exists pre post, l = pre ++ trimChars l ++ post.
Proof.
  unfold trimChars. destruct (trimStart_suffix l) as [pre Hpre].
  destruct (trimStart_suffix (rev (trimStart l))) as [post Hpost].
  exists pre, (rev post). rewrite <- rev_app_distr, <- Hpost, rev_involutive.
  exact Hpre.
Qed.

Lemma trimChars_sparse l : sparse l -> sparse (trimChars l).
Proof.
  intros H. destruct (trimChars_infix l) as (pre & post & Hl).
  rewrite Hl in H. apply sparse_suffix in H. by apply sparse_prefix in H.
Qed.

Lemma sparse_no_three l a b :
  sparse l -> l <> a ++ lineFeed :: lineFeed :: lineFeed :: b.
Proof.
  intros Hs ->. apply sparse_suffix in Hs. destruct Hs as [H _].
  simpl in H. change (isLineFeed lineFeed) with true in H. cbn iota in H. lia.
Qed.

(** X20.  The text that [stripHtmlTags] gives has no white space at its
    start or at its end, and nowhere three line feeds in a row. *)
Theorem stripHtmlTags_trimmed (html : string) :
  trim (stripHtmlTags html) = stripHtmlTags html
  /\ forall a b,
       chars (stripHtmlTags html) <> a ++ lineFeed :: lineFeed :: lineFeed :: b.
Proof.
  unfold stripHtmlTags. split.
  - unfold trim. by rewrite chars_str, trimChars_idempotent.
  - intros a b. rewrite chars_str. apply sparse_no_three, trimChars_sparse.
    unfold replacements. cbn [fold_left fst snd]. apply collapse_sparse.
Qed.

(** *** Plain text passes unchanged *)

Lemma replaceAll_none m by_ l :
  (forall c r, markup c = false -> m (c :: r) = None) ->
  forallb (fun c => negb (markup c)) l = true ->
  replaceAll m by_ 0 l = l.
Proof.
  intros Hm. induction l as [|c r IH]; [reflexivity|].
  cbn [forallb]. intros [Hc Hr]%andb_prop. apply negb_true_iff in Hc.
  cbn [replaceAll]. rewrite (Hm c r Hc), (IH Hr). reflexivity.
Qed.

Lemma lowerChar_markup c : markup c = false -> markup (lowerChar c) = false.
Proof. destruct c as [[] [] [] [] [] [] [] []]; vm_compute; congruence. Qed.

Lemma literal_none (p : string) :
  startsMarkup p = true -> forall c r, markup c = false -> literal p (c :: r) = None.
Proof.
  unfold startsMarkup, literal, listEqb. destruct (chars p) as [|x ps]; [discriminate|].
  intros Hp c r Hc. cbn [length take].
  case_bool_decide as E; [|reflexivity]. injection E as -> _. congruence.
Qed.

Lemma literalAnyCase_none (p : string) :
  startsMarkup p = true -> forall c r, markup c = false -> literalAnyCase p (c :: r) = None.
Proof.
  unfold startsMarkup, literalAnyCase, listEqb. destruct (chars p) as [|x ps]; [discriminate|].
  intros Hp c r Hc. cbn [length take map].
  case_bool_decide as E; [|reflexivity]. injection E as E _.
  apply lowerChar_markup in Hc. congruence.
Qed.

Lemma lineBreakTag_none c r : markup c = false -> lineBreakTag (c :: r) = None.
Proof.
  intros Hc. unfold lineBreakTag.
  rewrite (literalAnyCase_none "<br" eq_refl c r Hc). reflexivity.
Qed.

Lemma anyTag_none c r : markup c = false -> anyTag (c :: r) = None.
Proof.
  intros Hc. unfold anyTag. unfold markup in Hc. apply orb_false_elim in Hc as [-> _].
  reflexivity.
Qed.

Lemma collapse_sparse_id l : sparse l -> collapse l = l.
Proof.
  induction l as [|c r IH]; [reflexivity|]. intros [H1 H2].
  rewrite (collapse_few c r H1), (IH H2). reflexivity.
Qed.

(** X21.  A text that has no [<] and no [&], no three line feeds in a row
    and no white space at its start or end is a text that [stripHtmlTags]
    returns as it is. *)
Theorem stripHtmlTags_plain (text : string) :
  forallb (fun c => negb (markup c)) (chars text) = true ->
  sparse (chars text) ->
  trim text = text ->
  stripHtmlTags text = text.
Proof.
  intros Hplain Hsparse Htrim. unfold stripHtmlTags, replacements.
  cbn [fold_left fst snd].
  rewrite (replaceAll_none lineBreakTag _ _ lineBreakTag_none Hplain).
  rewrite (replaceAll_none _ _ _ (literalAnyCase_none "</p>" eq_refl) Hplain).
  rewrite (replaceAll_none _ _ _ (literalAnyCase_none "</div>" eq_refl) Hplain).
  rewrite (replaceAll_none _ _ _ (literalAnyCase_none "</li>" eq_refl) Hplain).
  rewrite (replaceAll_none anyTag _ _ anyTag_none Hplain).
  rewrite (replaceAll_none _ _ _ (literal_none "&nbsp;" eq_refl) Hplain).
  rewrite (replaceAll_none _ _ _ (literal_none "&amp;" eq_refl) Hplain).
  rewrite (replaceAll_none _ _ _ (literal_none "&lt;" eq_refl) Hplain).
  rewrite (replaceAll_none _ _ _ (literal_none "&gt;" eq_refl) Hplain).
  rewrite (replaceAll_none _ _ _ (literal_none "&quot;" eq_refl) Hplain).
  rewrite (replaceAll_none _ _ _ (literal_none "&#39;" eq_refl) Hplain).
  fold (collapse (chars text)). rewrite (collapse_sparse_id _ Hsparse).
  exact Htrim.
Qed.

Lemma stripHtmlTags_plain_witness :
  stripHtmlTags ("Dear Sir," +:+ str [lineFeed; lineFeed] +:+ "the invoice > 100 is attached.")
  = "Dear Sir," +:+ str [lineFeed; lineFeed] +:+ "the invoice > 100 is attached.".
Proof.
  apply stripHtmlTags_plain.
  - vm_compute. reflexivity.
  - vm_compute. repeat split; lia.
  - vm_compute. reflexivity.
Defined.

End HtmlFacts.

(** ** The parts of a message *)

Module MimeFacts.
Import Gmail Mime.

Lemma Part_nested_ind (P : Part -> Prop) :
  (forall parts mimeType body filename partId headers,
     match parts with
     | Some ps => Forall P ps
     | None => True
     end ->
     P (MkPart parts mimeType body filename partId headers)) ->
  forall part, P part.
Proof.
  intros step. fix IH 1. intros [parts mimeType body filename partId headers].
  apply step. destruct parts as [ps|]; [|exact I].
  induction ps as [|p ps IHps]; constructor; [apply IH | exact IHps].
Qed.

Section Extract.

Variable decode : string -> string.
Variable nativeText : string -> string.
Variable msgId : string.
Variable accountIndex : Z.

Lemma attachments_extractOwn rel mimeType body filename partId headers st :
  map att_id (attachments (extractOwn decode nativeText msgId accountIndex rel mimeType body filename partId headers st))
  = map att_id (attachments st)
    ++ match attachmentIdOf body with
       | Some attachmentId => [attachmentId]
       | None => []
       end.
Proof.
  unfold Mime.extractOwn.
  destruct (dataOf body) as [data|], (attachmentIdOf body) as [attachmentId|];
    repeat match goal with |- context [if ?b then _ else _] => destruct b end;
    cbn [attachments]; rewrite ?map_app, ?app_nil_r; reflexivity.
Qed.

Lemma attachmentIds_part part :
  forall rel st,
    map att_id (attachments (extractPart decode nativeText msgId accountIndex rel part st))
    = map att_id (attachments st) ++ attachmentIds part.
Proof.
  induction part as [parts mimeType body filename partId headers IH]
    using Part_nested_ind.
  intros rel st. cbn [Mime.extractPart attachmentIds].
  rewrite attachments_extractOwn, app_assoc. f_equal.
  destruct parts as [ps|]; [|by rewrite app_nil_r].
  generalize (bool_decide (mimeType = Some "multipart/related") || rel) as flag.
  intros flag. revert st.
  induction ps as [|p ps IHps]; intros st; [by rewrite app_nil_r|].
  apply Forall_cons in IH as [Hp Hps].
  cbn [fold_left flat_map]. rewrite (IHps Hps), Hp, app_assoc. reflexivity.
Qed.

Lemma firstTruthy_app a b :
  firstTruthy (a ++ b) = if truthy (firstTruthy a) then firstTruthy a else firstTruthy b.
Proof.
  induction a as [|s a IH]; [reflexivity|]. cbn [app firstTruthy].
  destruct (truthy s) eqn:E; [by rewrite E | exact IH].
Qed.

Lemma firstTruthy_flat_map {A} (f : A -> list string) (x : A) (l : list A) (s : string) :
  (if truthy (if truthy s then s else firstTruthy (f x))
   then (if truthy s then s else firstTruthy (f x))
   else firstTruthy (flat_map f l))
  = if truthy s then s else firstTruthy (f x ++ flat_map f l).
Proof.
  rewrite firstTruthy_app. destruct (truthy s) eqn:E; [by rewrite E | reflexivity].
Qed.

Lemma textsAfter_same st st' :
  bodyText st' = bodyText st -> bodyHtml st' = bodyHtml st -> textsAfter decode st [] [] st'.
Proof.
  intros Ht Hh. split; cbn [map firstTruthy]; [rewrite Ht | rewrite Hh];
    by destruct (truthy _) eqn:E; [|apply negb_false_iff, bool_decide_eq_true in E].
Qed.

Lemma textsAfter_nil st : textsAfter decode st [] [] st.
Proof. by apply textsAfter_same. Qed.

Lemma textsAfter_trans st1 st2 st3 p1 h1 p2 h2 :
  textsAfter decode st1 p1 h1 st2 -> textsAfter decode st2 p2 h2 st3 ->
  textsAfter decode st1 (p1 ++ p2) (h1 ++ h2) st3.
Proof.
  intros [Hp1 Hh1] [Hp2 Hh2]. split.
  - rewrite Hp2, Hp1, map_app, firstTruthy_app.
    destruct (truthy (bodyText st1)) eqn:E; [by rewrite E | reflexivity].
  - rewrite Hh2, Hh1, map_app, firstTruthy_app.
    destruct (truthy (bodyHtml st1)) eqn:E; [by rewrite E | reflexivity].
Qed.

Lemma textsAfter_extractOwn rel mimeType body filename partId headers st :
  textsAfter decode st
    match dataOf body with
    | Some data => if bool_decide (mimeType = Some "text/plain") then [data] else []
    | None => []
    end
    match dataOf body with
    | Some data => if bool_decide (mimeType = Some "text/html") then [data] else []
    | None => []
    end
    (extractOwn decode nativeText msgId accountIndex rel mimeType body filename partId
       headers st).
Proof.
  unfold Mime.extractOwn, textsAfter.
  destruct (dataOf body) as [data|].
  - destruct (bool_decide (mimeType = Some "text/plain")) eqn:Ep,
      (bool_decide (mimeType = Some "text/html")) eqn:Eh;
      try (apply bool_decide_eq_true in Ep; apply bool_decide_eq_true in Eh; congruence);
      destruct (truthy (bodyText st)) eqn:Et, (truthy (bodyHtml st)) eqn:Ex;
      destruct (attachmentIdOf body);
      cbn [andb negb attachments bodyText bodyHtml map firstTruthy];
      rewrite ?Et, ?Ex; cbn [andb negb attachments bodyText bodyHtml map firstTruthy];
      split; try reflexivity;
      try (destruct (truthy (decode data)) eqn:Ed; [reflexivity|];
           by apply negb_false_iff, bool_decide_eq_true in Ed);
      try by (apply negb_false_iff, bool_decide_eq_true in Et).
    all: try by (apply negb_false_iff, bool_decide_eq_true in Ex).
  - destruct (attachmentIdOf body); by apply textsAfter_same.
Qed.

Lemma textsAfter_part part :
  forall rel st,
    textsAfter decode st (dataOfType "text/plain" part) (dataOfType "text/html" part)
      (extractPart decode nativeText msgId accountIndex rel part st).
Proof.
  induction part as [parts mimeType body filename partId headers IH]
    using Part_nested_ind.
  intros rel st. cbn [Mime.extractPart dataOfType].
  eapply textsAfter_trans; [|apply textsAfter_extractOwn].
  destruct parts as [ps|]; [|apply textsAfter_nil].
  generalize (bool_decide (mimeType = Some "multipart/related") || rel) as flag.
  intros flag. revert st.
  induction ps as [|p ps IHps]; intros st; [apply textsAfter_nil|].
  apply Forall_cons in IH as [Hp Hps]. cbn [fold_left flat_map].
  eapply textsAfter_trans; [apply Hp | apply (IHps Hps)].
Qed.

Lemma textsAfter_parts parts rel st :
  textsAfter decode st (flat_map (dataOfType "text/plain") parts)
    (flat_map (dataOfType "text/html") parts)
    (extractParts decode nativeText msgId accountIndex parts rel st).
Proof.
  unfold extractParts. revert st.
  induction parts as [|p ps IH]; intros st; [apply textsAfter_nil|].
  cbn [fold_left flat_map].
  eapply textsAfter_trans; [apply textsAfter_part | apply IH].
Qed.

Lemma inlineOrNamed_mono names names' a :
  (forall n, In n names -> In n names') -> inlineOrNamed names a -> inlineOrNamed names' a.
Proof. intros Hsub Ha Hi. apply Hsub, Ha, Hi. Qed.

Lemma related_extractOwn names mimeType body filename partId headers st :
  (forall n, present filename = Some n -> In n names) ->
  Forall (inlineOrNamed names) (attachments st) ->
  Forall (inlineOrNamed names)
    (attachments
       (extractOwn decode nativeText msgId accountIndex true mimeType body filename partId
          headers st)).
Proof.
  intros Hname Hst. unfold Mime.extractOwn.
  assert (Hkeep : forall st', attachments st' = attachments st ->
            Forall (inlineOrNamed names)
              (attachments
                 match attachmentIdOf body with
                 | Some attachmentId =>
                     {| attachments :=
                          attachments st'
                          ++ [ {| att_id := attachmentId;
                                  att_messageId := msgId;
                                  att_filename :=
                                    orElseNull filename
                                      (fallbackFilename partId
                                         (extText nativeText mimeType));
                                  att_mimeType :=
                                    orElseNull mimeType "application/octet-stream";
                                  att_size := sizeOf body;
                                  att_isInline :=
                                    hasInlineHeader headers
                                    || (negb (truthy (orElseNull filename EmptyString))
                                        && true);
                                  att_accountIndex := accountIndex |} ];
                        bodyText := bodyText st';
                        bodyHtml := bodyHtml st' |}
                 | None => st'
                 end)).
  { intros st' E. destruct (attachmentIdOf body) as [attachmentId|]; cbn [attachments];
      rewrite E; [|exact Hst].
    apply Forall_app. split; [exact Hst|]. constructor; [|constructor].
    unfold inlineOrNamed. cbn [att_isInline att_filename]. intros Hi.
    apply orb_false_elim in Hi as [_ Hi]. rewrite andb_true_r in Hi.
    apply negb_false_iff in Hi. apply Hname.
    destruct filename as [name|]; cbn [orElseNull present] in *.
    - unfold orElse in *. case_bool_decide as E0.
      + subst name. discriminate Hi.
      + unfold truthy. rewrite bool_decide_eq_false_2 by exact E0. reflexivity.
    - discriminate Hi. }
  apply Hkeep.
  destruct (dataOf body) as [data|]; [|reflexivity].
  repeat match goal with |- context [if ?b then _ else _] => destruct b end; reflexivity.
Qed.

Lemma related_part part :
  forall names st,
    (forall n, In n (filenames part) -> In n names) ->
    Forall (inlineOrNamed names) (attachments st) ->
    Forall (inlineOrNamed names)
      (attachments (extractPart decode nativeText msgId accountIndex true part st)).
Proof.
  induction part as [parts mimeType body filename partId headers IH]
    using Part_nested_ind.
  intros names st Hsub Hst. cbn [Mime.extractPart]. cbn [filenames] in Hsub.
  apply related_extractOwn.
  { intros n Hn. apply Hsub, in_or_app. right. rewrite Hn. by left. }
  destruct parts as [ps|]; [|exact Hst].
  rewrite orb_true_r.
  assert (Hsub' : forall n, In n (flat_map filenames ps) -> In n names).
  { intros n Hn. apply Hsub, in_or_app. by left. }
  clear Hsub. revert st Hst.
  induction ps as [|p ps IHps]; intros st Hst; [exact Hst|].
  apply Forall_cons in IH as [Hp Hps]. cbn [fold_left].
  apply (IHps Hps).
  - intros n Hn. apply Hsub'. cbn [flat_map]. apply in_or_app. by right.
  - apply Hp; [|exact Hst].
    intros n Hn. apply Hsub'. cbn [flat_map]. apply in_or_app. by left.
Qed.

End Extract.

(** A message of a page with a picture in it and a document beside it. *)
Example extractPayload_demo :
  let leaf mimeType data attachmentId filename partId :=
    MkPart None (Some mimeType)
      (Some {| body_data := data; body_attachmentId := attachmentId;
               body_size := Some 10%Z |})
      filename (Some partId) None in
  let payload :=
    MkPart
      (Some [ MkPart
                (Some [ leaf "text/html" (Some "<p>Hello</p>") None None "0.0";
                        leaf "image/png" None (Some "att-1") (Some EmptyString) "0.1" ])
                (Some "multipart/related") None None (Some "0") None;
              leaf "application/pdf" None (Some "att-2") (Some "invoice.pdf") "1" ])
      (Some "multipart/mixed") None None None None in
  let st := extractPayload (fun data => data) (fun _ => EmptyString) "m1" 1 (Some payload) in
  map (fun a => (att_id a, att_filename a, att_isInline a)) (attachments st)
  = [ ("att-1", "inline_0.1.png", true); ("att-2", "invoice.pdf", false) ]
  /\ bodyText st = EmptyString
  /\ bodyHtml st = "<p>Hello</p>"
  /\ map att_filename (shownAttachments false (attachments st)) = ["invoice.pdf"].
Proof. vm_compute. repeat split. Qed.

(** X22.  [extractParts] gives one attachment for every part that carries
    an attachment id, at whatever depth, after the attachments that were
    there: in the order of the parts, those that a part holds before the
    part itself. *)
Theorem extractParts_attachment_ids decode nativeText msgId accountIndex
    (parts : list Part) (parentIsRelated : bool) (st : Extracted) :
  map att_id
    (attachments (extractParts decode nativeText msgId accountIndex parts parentIsRelated st))
  = map att_id (attachments st) ++ flat_map attachmentIds parts.
Proof.
  unfold extractParts. revert st.
  induction parts as [|p ps IH]; intros st; [by rewrite app_nil_r|].
  cbn [fold_left flat_map]. rewrite IH, attachmentIds_part, app_assoc. reflexivity.
Qed.

(** X23.  The plain text of a message is the first text that is not empty
    among the decoded parts of the type [text/plain], in the order of the
    loop, and the empty text if there is none; the same holds of the HTML
    text and the parts of the type [text/html]. *)
Theorem extractParts_body_texts decode nativeText msgId accountIndex
    (parts : list Part) (parentIsRelated : bool) :
  let st := extractParts decode nativeText msgId accountIndex parts parentIsRelated nothing in
  bodyText st = firstTruthy (map decode (flat_map (dataOfType "text/plain") parts))
  /\ bodyHtml st = firstTruthy (map decode (flat_map (dataOfType "text/html") parts)).
Proof.
  exact (textsAfter_parts decode nativeText msgId accountIndex parts parentIsRelated nothing).
Qed.

(** X24.  Among the parts that a [multipart/related] part holds, at
    whatever depth, a part without a file name is an inline attachment: an
    attachment that is left when the inline ones are not shown has the file
    name of one of the parts, never a made-up one. *)
Theorem related_parts_shown_by_name decode nativeText msgId accountIndex
    (parts : list Part) :
  Forall (fun a => In (att_filename a) (flat_map filenames parts))
    (shownAttachments false
       (attachments (extractParts decode nativeText msgId accountIndex parts true nothing))).
Proof.
  assert (H : forall names st,
            (forall n, In n (flat_map filenames parts) -> In n names) ->
            Forall (inlineOrNamed names) (attachments st) ->
            Forall (inlineOrNamed names)
              (attachments
                 (extractParts decode nativeText msgId accountIndex parts true st))).
  { unfold extractParts. induction parts as [|p ps IH]; intros names st Hsub Hst;
      [exact Hst|].
    cbn [fold_left]. apply IH.
    - intros n Hn. apply Hsub. cbn [flat_map]. apply in_or_app. by right.
    - apply related_part; [|exact Hst].
      intros n Hn. apply Hsub. cbn [flat_map]. apply in_or_app. by left. }
  specialize (H (flat_map filenames parts) nothing (fun _ Hn => Hn) (Forall_nil_2 _)).
  unfold shownAttachments. apply Forall_forall. intros a Ha.
  apply list_elem_of_In, List.filter_In in Ha as [Ha Hi].
  apply negb_true_iff in Hi.
  rewrite Forall_forall in H. apply (H a); [by apply list_elem_of_In | exact Hi].
Qed.

End MimeFacts.

(** ** The names that the page shows *)

Module ClientFacts.
Import Client.

Lemma append_not_self (a b c : string) : a <> b -> a +:+ c <> b +:+ c.
Proof. intros Hab H. by apply Hab, (append_cancel_r a b c). Qed.

Lemma substring0_short n s : length (chars s) <= n -> substring0 n s = s.
Proof.
  intros H. unfold substring0. rewrite take_ge by exact H. apply str_chars.
Qed.

Lemma substring0_long n s : n < length (chars s) -> substring0 n s <> s.
Proof.
  intros H E. apply (f_equal (fun x => length (chars x))) in E.
  unfold substring0 in E. rewrite chars_str, length_take in E. lia.
Qed.

(** X25.  The name that the page shows for an attachment is the name that
    the bundle records for it in all cases but two: an attachment with a
    generic name whose subject is not empty and is cleaned to the empty text,
    where the bundle says [Unknown], or to more than 60 characters, where the
    bundle cuts it. *)
Theorem shown_name_is_bundle_name (original subject : string) :
  getCleanAttachmentName original (Some subject) = cleanAttachmentName original subject
  <-> (isGenericFilename original = false
       \/ subject = EmptyString
       \/ (sanitizeForFilename subject <> EmptyString
           /\ length (chars (sanitizeForFilename subject)) <= 60)).
Proof.
  unfold getCleanAttachmentName, cleanAttachmentName, truthy, sanitizeFolderName.
  fold (sanitizeForFilename subject).
  destruct (isGenericFilename original); cbn [andb];
    [|split; [by left | reflexivity]].
  case_bool_decide as Hs; cbn [negb]; [split; [by right; left | reflexivity]|].
  destruct (decide (sanitizeForFilename subject = EmptyString)) as [He|Hne].
  - rewrite He. split.
    + intros H. apply append_cancel_r in H. discriminate H.
    + intros [H|[H|[H _]]]; [discriminate | contradiction | contradiction].
  - rewrite (orElse_nonempty _ _ Hne).
    destruct (le_lt_dec (length (chars (sanitizeForFilename subject))) 60) as [Hle|Hgt].
    + rewrite (substring0_short _ _ Hle). split; [by right; right | reflexivity].
    + split.
      * intros H. apply append_cancel_r in H. symmetry in H.
        by apply substring0_long in H.
      * intros [H|[H|[_ H]]]; [discriminate | contradiction | lia].
Qed.

End ClientFacts.

(** ** The names of the raw files *)

Lemma NoDup_twice {A} (x : A) (p q r : list A) : ~ NoDup (p ++ x :: q ++ x :: r).
Proof.
  intros H. apply NoDup_app in H as (_ & _ & H). apply NoDup_cons in H as [H _].
  apply H, elem_of_app. right. by left.
Qed.

Lemma fetched_split (w : World) (item : Item) (before mid after : list AttachmentRef)
    (a1 a2 : AttachmentRef) (b1 b2 : Buffer) :
  item_attachments item = before ++ a1 :: mid ++ a2 :: after ->
  downloadAttachment w (item_messageId item) (att_id a1) (item_accountIndex item) = Ok b1 ->
  downloadAttachment w (item_messageId item) (att_id a2) (item_accountIndex item) = Ok b2 ->
  exists p q r, fetched w item = p ++ (a1, b1) :: q ++ (a2, b2) :: r.
Proof.
  intros Hatts H1 H2. unfold fetched. rewrite Hatts.
  rewrite omap_app. cbn [omap list_omap]. rewrite H1, omap_app. cbn [omap list_omap].
  rewrite H2. eauto.
Qed.

(** X26.  The raw files get no counter: two attachments of an item that
    carry the same file name and are both fetched give two entries of the
    archive with one and the same name. *)
Theorem raw_names_repeat (w : World) (earlier later : list Item) (item : Item)
    (before mid after : list AttachmentRef) (a1 a2 : AttachmentRef) (b1 b2 : Buffer) :
  item_attachments item = before ++ a1 :: mid ++ a2 :: after ->
  att_filename a1 = att_filename a2 ->
  downloadAttachment w (item_messageId item) (att_id a1) (item_accountIndex item) = Ok b1 ->
  downloadAttachment w (item_messageId item) (att_id a2) (item_accountIndex item) = Ok b2 ->
  exists entries,
    bundle w (earlier ++ item :: later) = ZipStream entries
    /\ ~ NoDup (map entry_name entries).
Proof.
  intros Hatts Hname H1 H2.
  destruct (fetched_split w item before mid after a1 a2 b1 b2 Hatts H1 H2)
    as (p & q & r & Hf).
  eexists. split; [apply bundle_entries_at|].
  rewrite !map_app. unfold itemEntries at 1.
  rewrite downloadAttachments_fetched, Hf.
  rewrite !map_app. cbn [map]. rewrite !map_app. cbn [map].
  unfold rawEntry at 2 4. cbn [entry_name downloaded da_filename]. rewrite Hname.
  set (n := entityFolderOf item +:+ _).
  match goal with
  | |- ~ NoDup (?a ++ (?c ++ ?p ++ n :: ?q ++ n :: ?r) ++ ?b) =>
      replace (a ++ (c ++ p ++ n :: q ++ n :: r) ++ b)
        with ((a ++ c ++ p) ++ n :: q ++ n :: (r ++ b))
        by (rewrite <- !app_assoc; cbn [app]; rewrite <- !app_assoc; reflexivity)
  end.
  apply NoDup_twice.
Qed.

Lemma raw_names_repeat_witness :
  exists entries,
    bundle Demo.world
      [ Demo.mailWith
          [ Demo.invoicePdf;
            {| att_id := "att-scan"; att_filename := "invoice.pdf";
               att_mimeType := "application/pdf"; att_size := 12 |} ] ]
    = ZipStream entries
    /\ ~ NoDup (map entry_name entries).
Proof.
  apply (raw_names_repeat Demo.world [] [] _ [] [] [] Demo.invoicePdf
           {| att_id := "att-scan"; att_filename := "invoice.pdf";
              att_mimeType := "application/pdf"; att_size := 12 |}
           (Demo.bytesOf "%PDF-1.7 invoice") (Demo.bytesOf "damaged scan"));
    reflexivity.
Defined.

Lemma extensionOf_cleanAttachmentName (filename subject stem tail : string) :
  filename = stem +:+ "." +:+ tail ->
  includesDot tail = false ->
  extensionOf (cleanAttachmentName filename subject) = "." +:+ tail.
Proof.
  intros -> Htail. unfold cleanAttachmentName.
  destruct (isGenericFilename _ && _).
  - rewrite (extensionOf_append stem tail Htail). by apply extensionOf_append.
  - by apply extensionOf_append.
Qed.

(** X27.  The name of a raw file ends with the extension of the attachment
    as it was given, renamed or not: the text after the last dot of the file
    name passes into the name of the entry without any cleaning. *)
Theorem raw_entry_extension_verbatim (w : World) (item : Item) (att : AttachmentRef)
    (buffer : Buffer) (stem tail : string) :
  att_filename att = stem +:+ "." +:+ tail ->
  includesDot tail = false ->
  exists pre,
    entry_name (rawEntry w item (downloaded item att buffer)) = pre +:+ "." +:+ tail
    /\ startsWith (entityFolderOf item +:+ "/") pre = true.
Proof.
  intros Hname Htail. unfold rawEntry. cbn [entry_name downloaded da_filename].
  rewrite (extensionOf_cleanAttachmentName _ (item_subject item) stem tail Hname Htail).
  exists ((entityFolderOf item +:+ "/")
          +:+ (formatDatePrefix w (item_date item) +:+ "_"
               +:+ substring0 60
                     (sanitizeFolderName
                        (stripExt
                           (cleanAttachmentName (att_filename att) (item_subject item)))))).
  split.
  - apply chars_inj. rewrite !chars_app, <- !app_assoc. reflexivity.
  - apply startsWith_append.
Qed.

Lemma raw_entry_extension_verbatim_witness :
  exists pre,
    entry_name
      (rawEntry Demo.world (Demo.mailWith [])
         (downloaded (Demo.mailWith [])
            {| att_id := "att-scan"; att_filename := "scan.pdf/../up";
               att_mimeType := "application/pdf"; att_size := 12 |}
            (Demo.bytesOf "damaged scan")))
    = pre +:+ "." +:+ "/up"
    /\ startsWith (entityFolderOf (Demo.mailWith []) +:+ "/") pre = true.
Proof.
  apply (raw_entry_extension_verbatim Demo.world (Demo.mailWith []) _ _ "scan.pdf/." "/up");
    reflexivity.
Defined.

(** ** [searchMessages] *)

Module SearchFacts.
Import Mime Search.

Lemma searchMessages_loop decode nativeText getMessage accountIndex
    (refs : list MessageRef) (acc : list MessageResult) :
  map mr_id
    (fold_left
       (fun results msg =>
          catchWith
            (full ← getMessage (ref_id msg);
             mret (results ++ [messageResult decode nativeText accountIndex msg full]))
            (fun _ => results))
       refs acc)
  = map mr_id acc ++ map ref_id (List.filter (fetches getMessage) refs).
Proof.
  revert acc. induction refs as [|msg refs IH]; intros acc; [by rewrite app_nil_r|].
  cbn [fold_left List.filter]. rewrite IH. unfold fetches at 2.
  destruct (getMessage (ref_id msg)) as [full|e]; [|reflexivity].
  cbn [catchWith mbind result_bind mret result_ret].
  rewrite map_app, <- app_assoc. reflexivity.
Qed.

(** X28.  When the list of the messages is given, [searchMessages] returns:
    its results are those of the messages whose fetch returned, one for each,
    in the order of the list, and a fetch that throws leaves only its own
    message out.  When the list itself cannot be had, the search throws. *)
Theorem searchMessages_skips_failures decode nativeText getMessage accountIndex
    (listMessages : result (option (list MessageRef))) :
  match listMessages with
  | Ok listed =>
      exists results,
        searchMessages decode nativeText listMessages getMessage accountIndex = Ok results
        /\ map mr_id results
           = map ref_id (List.filter (fetches getMessage) (default [] listed))
  | Throw e =>
      searchMessages decode nativeText listMessages getMessage accountIndex = Throw e
  end.
Proof.
  destruct listMessages as [listed|e]; [|reflexivity].
  eexists. split; [reflexivity|].
  apply (searchMessages_loop decode nativeText getMessage accountIndex _ []).
Qed.

End SearchFacts.
